(** * A model of [cli.py]: the [CLIInput] console bridge

    [CLIInput] connects a pair of [queue.Queue] objects to a pair of
    file-like streams.  One daemon thread runs
    [_read_commands_from_prompt] (stdin to the "from user" queue), another
    runs [_output_commands_to_prompt] (the "to user" queue to stdout);
    [start] and [stop] flip the shared [_running] flag and create or join
    the threads.

    The embedding is a small-step machine: every thread that was ever
    created sits in a pool with its own program point, and the functions
    [thread_step], [thread_raise], [start] and [stop] are the atomic
    actions that the interleaving relation [step] schedules. *)

From Stdlib Require Import Ascii String QArith.
From stdpp Require Import base option list strings.

Close Scope Q_scope.
Open Scope string_scope.

(** ** Python strings *)

Module PyStr.

(** ['\n'], the one-character string passed to [rstrip]. *)
Definition newline : ascii := Ascii.ascii_of_nat 10.
Definition nl : string := String newline EmptyString.

(** [c in chars] for a character and a string used as a character set. *)
Fixpoint mem (c : ascii) (chars : string) : bool :=
  match chars with
  | EmptyString => false
  | String d rest => if Ascii.eqb c d then true else mem c rest
  end.

(** [s.rstrip(chars)]: the longest prefix of [s] whose last character is
    not a member of [chars].  Going right to left: a character is dropped
    exactly when everything after it has been dropped and it is itself a
    member of [chars]. *)
Fixpoint rstrip (s chars : string) : string :=
  match s with
  | EmptyString => EmptyString
  | String c rest =>
      match rstrip rest chars with
      | EmptyString => if mem c chars then EmptyString else String c EmptyString
      | kept => String c kept
      end
  end.

(** The last character of a string, if any. *)
Fixpoint last (s : string) : option ascii :=
  match s with
  | EmptyString => None
  | String c EmptyString => Some c
  | String _ rest => last rest
  end.

(** [n] copies of a character. *)
Fixpoint replicate (n : nat) (c : ascii) : string :=
  match n with
  | O => EmptyString
  | S k => String c (replicate k c)
  end.

(** Dropping the last character: what "strip exactly one trailing
    newline" does to a string that ends in a newline. *)
Fixpoint drop_last (s : string) : string :=
  match s with
  | EmptyString => EmptyString
  | String _ EmptyString => EmptyString
  | String c rest => String c (drop_last rest)
  end.

(** ['{}\n'.format(response)] for a [str] response. *)
Definition format_line (response : string) : string := response ++ nl.

End PyStr.

(** ** Exceptions and the outcome of a call *)

Inductive exn := RuntimeError | AttributeError | OSError | ValueError | Empty.

#[global] Instance exn_eq_dec : EqDecision exn.
Proof. solve_decision. Defined.

(** A call returns a value, raises, or never comes back by itself. *)
Inductive outcome (A : Type) :=
  | Return (a : A)
  | Raise (e : exn)
  | Hang.
Arguments Return {A} a.
Arguments Raise {A} e.
Arguments Hang {A}.

(** ** Module constant *)

(** [OUTPUT_QUEUE_BLOCK_TIME = 0.25], in seconds; the float is exactly 1/4. *)
Definition OUTPUT_QUEUE_BLOCK_TIME : Q := (1 # 4)%Q.

(** Truth value of a Python float: [bool(x)] is [x != 0.0]. *)
Definition truthy (x : Q) : bool := negb (Qeq_bool x 0).

(** ** [queue.Queue]: an unbounded FIFO *)

Module Queue.
Section Queue.
Context {A : Type}.

(** [q.put(x)] on an unbounded queue: append at the right. *)
Definition put (x : A) (q : list A) : list A := q ++ [x].

Inductive get_outcome :=
  | Got (x : A) (q' : list A)   (* the leftmost item, returned at once *)
  | RaisesEmpty (after : Q)     (* [queue.Empty], after [after] seconds without a put *)
  | RaisesValueError            (* negative timeout *)
  | WaitsForPut.                (* sleeps on [not_empty] with no deadline *)

(** [q.get(block=True, timeout=None)], branch for branch as in the
    standard library:
    [if not block: if not qsize: raise Empty]
    [elif timeout is None: while not qsize: wait()]
    [elif timeout < 0: raise ValueError]
    [else: wait until the deadline, then raise Empty]. *)
Definition get (block : bool) (timeout : option Q) (q : list A) : get_outcome :=
  if negb block then
    match q with
    | [] => RaisesEmpty 0
    | x :: q' => Got x q'
    end
  else
    match timeout with
    | None =>
        match q with
        | [] => WaitsForPut
        | x :: q' => Got x q'
        end
    | Some t =>
        if Qle_bool 0 t then
          match q with
          | [] => RaisesEmpty t
          | x :: q' => Got x q'
          end
        else RaisesValueError
    end.
End Queue.
Arguments get_outcome : clear implicits.
End Queue.

(** ** The streams *)

(** What one call of [self._stdin.readline()] does once it stops waiting:
    it returns a string ([''] at end of file) or raises. *)
Inductive read_outcome :=
  | Returns (raw : string)
  | Fails (e : exn).

(** Calls received by [self._stdout], oldest first. *)
Inductive out_call :=
  | write (data : string)
  | flush.

(** Items of the from-user queue: a command, or [None] for end of input. *)
Inductive py_value :=
  | PyNone
  | PyString (s : string).

(** ** Threads *)

Inductive target :=
  | _output_commands_to_prompt_target
  | _read_commands_from_prompt_target.

(** Where a started thread is inside the [while self._running] loop of its
    target. *)
Inductive point :=
  | LoopTest                (* about to evaluate [self._running] *)
  | InCall                  (* inside [Queue.get] / [readline] *)
  | Holding (text : string) (* [response] / [raw_command] is bound *)
  | Flushing.               (* written, about to call [flush] *)

Inductive status :=
  | Unstarted               (* [Thread(...)] built, [start()] not done *)
  | Alive (p : point)
  | Exited                  (* the target returned *)
  | Died (e : exn).         (* an exception left the target; only this thread ends *)

Record thread := Thread { thread_target : target; thread_status : status }.

(** [t.join(timeout)]: [RuntimeError] before the thread is started; otherwise
    it comes back when the thread has ended or the timeout is over, and
    without a timeout it waits for the thread to end. *)
Definition Thread_join (t : thread) (timeout : option Q) : outcome unit :=
  match thread_status t with
  | Unstarted => Raise RuntimeError
  | Exited | Died _ => Return tt
  | Alive _ =>
      match timeout with
      | Some _ => Return tt
      | None => Hang
      end
  end.

(** ** The [CLIInput] object and what it refers to *)

(** The attributes of one [CLIInput] instance.  The objects it refers to are
    stored by content: the queues as lists (left end first), stdin as the
    outcomes of the reads still to come (a read waits while that list is
    empty), stdout as the calls it has received.  Thread attributes are
    [None] or the position of the thread in [threads], the pool of every
    [Thread] object created so far.  [exc_log] holds the messages of
    [log.exception]; debug logging is left out. *)
Record CLIInput := Build_CLIInput {
  _stdin : list read_outcome;
  _stdout : list out_call;
  _to_user_queue : list string;
  _from_user_queue : list py_value;
  _running : bool;
  _to_user_thread : option nat;
  _from_user_thread : option nat;
  threads : list thread;
  exc_log : list string
}.

Definition set_stdin (v : list read_outcome) (s : CLIInput) : CLIInput :=
  Build_CLIInput v (_stdout s) (_to_user_queue s) (_from_user_queue s)
    (_running s) (_to_user_thread s) (_from_user_thread s) (threads s) (exc_log s).
Definition set_stdout (v : list out_call) (s : CLIInput) : CLIInput :=
  Build_CLIInput (_stdin s) v (_to_user_queue s) (_from_user_queue s)
    (_running s) (_to_user_thread s) (_from_user_thread s) (threads s) (exc_log s).
Definition set_to_user_queue (v : list string) (s : CLIInput) : CLIInput :=
  Build_CLIInput (_stdin s) (_stdout s) v (_from_user_queue s)
    (_running s) (_to_user_thread s) (_from_user_thread s) (threads s) (exc_log s).
Definition set_from_user_queue (v : list py_value) (s : CLIInput) : CLIInput :=
  Build_CLIInput (_stdin s) (_stdout s) (_to_user_queue s) v
    (_running s) (_to_user_thread s) (_from_user_thread s) (threads s) (exc_log s).
Definition set_running (v : bool) (s : CLIInput) : CLIInput :=
  Build_CLIInput (_stdin s) (_stdout s) (_to_user_queue s) (_from_user_queue s)
    v (_to_user_thread s) (_from_user_thread s) (threads s) (exc_log s).
Definition set_to_user_thread (v : option nat) (s : CLIInput) : CLIInput :=
  Build_CLIInput (_stdin s) (_stdout s) (_to_user_queue s) (_from_user_queue s)
    (_running s) v (_from_user_thread s) (threads s) (exc_log s).
Definition set_from_user_thread (v : option nat) (s : CLIInput) : CLIInput :=
  Build_CLIInput (_stdin s) (_stdout s) (_to_user_queue s) (_from_user_queue s)
    (_running s) (_to_user_thread s) v (threads s) (exc_log s).
Definition set_threads (v : list thread) (s : CLIInput) : CLIInput :=
  Build_CLIInput (_stdin s) (_stdout s) (_to_user_queue s) (_from_user_queue s)
    (_running s) (_to_user_thread s) (_from_user_thread s) v (exc_log s).
Definition set_exc_log (v : list string) (s : CLIInput) : CLIInput :=
  Build_CLIInput (_stdin s) (_stdout s) (_to_user_queue s) (_from_user_queue s)
    (_running s) (_to_user_thread s) (_from_user_thread s) (threads s) v.

(** [CLIInput(to_user_q, from_user_q, stdin, stdout)]. *)
Definition __init__ (to_user_q : list string) (from_user_q : list py_value)
    (stdin : list read_outcome) (stdout : list out_call) : CLIInput :=
  {| _stdin := stdin; _stdout := stdout;
     _to_user_queue := to_user_q; _from_user_queue := from_user_q;
     _running := false;
     _to_user_thread := None; _from_user_thread := None;
     threads := []; exc_log := [] |}.

(** ** Method bodies: state and exceptions *)

(** A method body: it runs on the object and ends with an outcome and the
    object as it left it (an exception undoes nothing). *)
Definition M (A : Type) : Type := CLIInput → outcome A * CLIInput.

Definition ret {A} (a : A) : M A := λ s, (Return a, s).
Definition raise {A} (e : exn) : M A := λ s, (Raise e, s).
Definition bind {A B} (m : M A) (k : A → M B) : M B :=
  λ s, match m s with
       | (Return a, s') => k a s'
       | (Raise e, s') => (Raise e, s')
       | (Hang, s') => (Hang, s')
       end.
Definition modify (f : CLIInput → CLIInput) : M unit := λ s, (Return tt, f s).
Definition read {A} (f : CLIInput → A) : M A := λ s, (Return (f s), s).
Definition lift {A} (f : CLIInput → outcome A) : M A := λ s, (f s, s).

(** [try: body except e: handler]. *)
Definition try_except (body : M unit) (e : exn) (handler : M unit) : M unit :=
  λ s, match body s with
       | (Raise e', s') => if decide (e' = e) then handler s' else (Raise e', s')
       | r => r
       end.

Notation "x <- m ;; k" := (bind m (λ x, k))
  (at level 100, m at next level, right associativity).
Notation "m ;;; k" := (bind m (λ _, k))
  (at level 100, right associativity).

Definition log_exception (msg : string) : M unit :=
  modify (λ s, set_exc_log (exc_log s ++ [msg]) s).

(** ** Thread objects held in attributes *)

(** [threading.Thread(target=...)]: a new, unstarted thread object; the
    result is its position in the pool.  ([daemon = True] only matters when
    the interpreter exits and is not modelled.) *)
Definition Thread_new (tg : target) : M nat :=
  λ s, (Return (length (threads s)),
        set_threads (threads s ++ [Thread tg Unstarted]) s).

(** Following an attribute that holds a thread; on [None] the method lookup
    raises [AttributeError]. *)
Definition deref (attr : CLIInput → option nat) : M (nat * thread) :=
  λ s, match attr s with
       | None => (Raise AttributeError, s)
       | Some i =>
           match threads s !! i with
           | None => (Raise AttributeError, s)
           | Some t => (Return (i, t), s)
           end
       end.

(** [attr.start()].  [granted] is the operating system's answer: when it
    refuses a new thread, [start] raises [RuntimeError] and the thread
    object stays unstarted.  A second [start] on one object raises too. *)
Definition Thread_start (granted : bool) (attr : CLIInput → option nat) : M unit :=
  it <- deref attr ;;
  match thread_status it.2 with
  | Unstarted =>
      if granted then
        modify (λ s, set_threads
                       (<[it.1 := Thread (thread_target it.2) (Alive LoopTest)]> (threads s)) s)
      else raise RuntimeError
  | _ => raise RuntimeError
  end.

(** [attr.join(timeout)]. *)
Definition join (attr : CLIInput → option nat) (timeout : option Q) : M unit :=
  it <- deref attr ;;
  lift (λ _, Thread_join it.2 timeout).

(** ** The methods of [CLIInput] *)

Definition _start_threads (granted_out granted_in : bool) : M unit :=
  t <- Thread_new _output_commands_to_prompt_target ;;
  modify (set_to_user_thread (Some t)) ;;;
  t' <- Thread_new _read_commands_from_prompt_target ;;
  modify (set_from_user_thread (Some t')) ;;;
  Thread_start granted_out _to_user_thread ;;;
  Thread_start granted_in _from_user_thread.

Definition _join_threads : M unit :=
  try_except (join _to_user_thread (Some (2 * OUTPUT_QUEUE_BLOCK_TIME)%Q))
    RuntimeError (log_exception "To user thread didn't exit - ignoring") ;;;
  try_except (join _from_user_thread (Some (2 * OUTPUT_QUEUE_BLOCK_TIME)%Q))
    RuntimeError (log_exception "From user thread didn't exit - ignoring").

Definition start (granted_out granted_in : bool) : M unit :=
  r <- read _running ;;
  if negb r then
    modify (set_running true) ;;;
    _start_threads granted_out granted_in
  else ret tt.

Definition stop : M unit :=
  r <- read _running ;;
  if r then
    modify (set_running false) ;;;
    _join_threads
  else ret tt.

(** The [running] property. *)
Definition running (s : CLIInput) : bool := _running s.

(** ** The two loops, one action at a time *)

(** One action of [_read_commands_from_prompt] from program point [p]:
    the new status of the thread and the new state, or [None] while the
    thread waits inside [readline]. *)
Definition _read_commands_from_prompt (p : point) (s : CLIInput)
    : option (status * CLIInput) :=
  match p with
  | LoopTest =>
      Some (if _running s then Alive InCall else Exited, s)
  | InCall =>
      match _stdin s with
      | [] => None
      | Returns raw_command :: rest => Some (Alive (Holding raw_command), set_stdin rest s)
      | Fails e :: rest => Some (Died e, set_stdin rest s)
      end
  | Holding raw_command =>
      if decide (raw_command = "") then
        Some (Exited, set_from_user_queue (Queue.put PyNone (_from_user_queue s)) s)
      else
        let command := PyStr.rstrip raw_command PyStr.nl in
        Some (Alive LoopTest,
              set_from_user_queue (Queue.put (PyString command) (_from_user_queue s)) s)
  | Flushing => None
  end.

(** What [self._stdout] does with a call of [write] or [flush]. *)
Inductive stream_answer :=
  | Accepted
  | Raised (e : exn).

(** One action of [_output_commands_to_prompt].  The call is
    [self._to_user_queue.get(OUTPUT_QUEUE_BLOCK_TIME)]: the constant goes to
    the first positional parameter, [block], and [timeout] keeps its
    default.  [answer] is what the stream does with the call made at this
    point, [write] when a response is in hand and [flush] after it.  Both
    calls stand in the [else] clause of the [try], where nothing is caught:
    when one raises, the exception leaves the target, the thread ends, and
    the response in hand is neither written nor back in the queue.  At the
    other points no call is made on the stream, so nothing can be raised
    there. *)
Definition _output_commands_to_prompt (answer : stream_answer) (p : point) (s : CLIInput)
    : option (status * CLIInput) :=
  match p with
  | LoopTest =>
      match answer with
      | Accepted => Some (if _running s then Alive InCall else Exited, s)
      | Raised _ => None
      end
  | InCall =>
      match answer with
      | Accepted =>
          match Queue.get (truthy OUTPUT_QUEUE_BLOCK_TIME) None (_to_user_queue s) with
          | Queue.Got response q' => Some (Alive (Holding response), set_to_user_queue q' s)
          | Queue.RaisesEmpty _ => Some (Alive LoopTest, s)
          | Queue.RaisesValueError => Some (Died ValueError, s)
          | Queue.WaitsForPut => None
          end
      | Raised _ => None
      end
  | Holding response =>
      match answer with
      | Accepted =>
          Some (Alive Flushing,
                set_stdout (_stdout s ++ [write (PyStr.format_line response)]) s)
      | Raised e => Some (Died e, s)
      end
  | Flushing =>
      match answer with
      | Accepted => Some (Alive LoopTest, set_stdout (_stdout s ++ [flush]) s)
      | Raised e => Some (Died e, s)
      end
  end.

(** The action of a thread whose call on the stream, if it makes one, is
    accepted.  (A failing [readline] is part of the input stream's data.) *)
Definition run_target (tg : target) : point → CLIInput → option (status * CLIInput) :=
  match tg with
  | _output_commands_to_prompt_target => _output_commands_to_prompt Accepted
  | _read_commands_from_prompt_target => _read_commands_from_prompt
  end.

(** Thread [i] of the pool takes its next action, if it has one. *)
Definition thread_step (i : nat) (s : CLIInput) : option CLIInput :=
  match threads s !! i with
  | Some (Thread tg (Alive p)) =>
      match run_target tg p s with
      | Some (st, s') => Some (set_threads (<[i := Thread tg st]> (threads s')) s')
      | None => None
      end
  | _ => None
  end.

(** Thread [i], a writer, makes its call on stdout and the call raises
    [e]. *)
Definition thread_raise (i : nat) (e : exn) (s : CLIInput) : option CLIInput :=
  match threads s !! i with
  | Some (Thread _output_commands_to_prompt_target (Alive p)) =>
      match _output_commands_to_prompt (Raised e) p s with
      | Some (st, s') =>
          Some (set_threads
                  (<[i := Thread _output_commands_to_prompt_target st]> (threads s')) s')
      | None => None
      end
  | _ => None
  end.

(** ** The system: interleaving of the threads, the owner and the terminal *)

Inductive event :=
  | ev_thread (i : nat)                          (* thread [i] acts *)
  | ev_start (granted_out granted_in : bool)     (* the owner calls [start()] *)
  | ev_stop                                      (* the owner calls [stop()] *)
  | ev_feed (x : read_outcome)                   (* the terminal has something for [readline] *)
  | ev_put (m : string)                          (* the owner puts on the to-user queue *)
  | ev_get                                       (* the owner takes from the from-user queue *)
  | ev_raise (i : nat) (e : exn).                (* the call of writer [i] on stdout raises *)

(** [stop] is one event: between setting the flag and coming back it only
    waits in [join], and what [join] answers depends on whether a thread was
    ever started, which no thread action changes. *)
Definition do_event (e : event) (s : CLIInput) : option CLIInput :=
  match e with
  | ev_thread i => thread_step i s
  | ev_start a b => Some (start a b s).2
  | ev_stop => Some (stop s).2
  | ev_feed x => Some (set_stdin (_stdin s ++ [x]) s)
  | ev_put m => Some (set_to_user_queue (Queue.put m (_to_user_queue s)) s)
  | ev_get =>
      match _from_user_queue s with
      | [] => None
      | _ :: q' => Some (set_from_user_queue q' s)
      end
  | ev_raise i e => thread_raise i e s
  end.

Definition step (s : CLIInput) (e : event) (s' : CLIInput) : Prop :=
  do_event e s = Some s'.

Inductive trace : CLIInput → list event → CLIInput → Prop :=
  | trace_nil s : trace s [] s
  | trace_cons s e s' es s'' : step s e s' → trace s' es s'' → trace s (e :: es) s''.

(** Running a schedule. *)
Fixpoint exec (es : list event) (s : CLIInput) : option CLIInput :=
  match es with
  | [] => Some s
  | e :: es' =>
      match do_event e s with
      | Some s' => exec es' s'
      | None => None
      end
  end.

(** ** Derived notions used in the statements *)

(** One thread running by itself, on a stream that takes its calls: up to
    [fuel] actions, ending early when the thread has no action left (it
    waits or it has ended). *)
Fixpoint run_thread (i fuel : nat) (s : CLIInput) : CLIInput :=
  match fuel with
  | O => s
  | S k =>
      match thread_step i s with
      | Some s' => run_thread i k s'
      | None => s
      end
  end.

(** The specification's wording for the reader, "strip exactly one trailing
    newline": drop the last character when it is a newline, and nothing
    else. *)
Definition strip_one_trailing_newline (raw : string) : string :=
  match PyStr.last raw with
  | Some c => if Ascii.eqb c PyStr.newline then PyStr.drop_last raw else raw
  | None => raw
  end.

(** A string that does not end in a newline. *)
Definition no_trailing_newline (s : string) : Prop :=
  PyStr.last s ≠ Some PyStr.newline.

Definition is_stop (e : event) : bool :=
  match e with ev_stop => true | _ => false end.
Definition is_start (e : event) : bool :=
  match e with ev_start _ _ => true | _ => false end.
Definition is_put (e : event) : bool :=
  match e with ev_put _ => true | _ => false end.

(** A thread that has ended or was never started takes no action again. *)
Definition alive (t : thread) : bool :=
  match thread_status t with
  | Alive _ => true
  | _ => false
  end.

Definition is_reader (t : thread) : bool :=
  match thread_target t with
  | _read_commands_from_prompt_target => true
  | _ => false
  end.

Definition reader := Thread _read_commands_from_prompt_target.
Definition writer := Thread _output_commands_to_prompt_target.

(** What the writer sends to stdout for one message. *)
Definition emitted (m : string) : list out_call :=
  [write (m ++ PyStr.nl); flush].





(** The state a schedule leads to (the state itself if the schedule cannot
    be run to its end). *)
Definition after (es : list event) (s : CLIInput) : CLIInput :=
  default s (exec es s).

(** What the reader puts for a non-empty result of [readline]. *)
Definition command_of (raw : string) : py_value :=
  PyString (PyStr.rstrip raw PyStr.nl).

(** A read that returns a line (not the end of the stream, not an error). *)
Definition is_line (x : read_outcome) : bool :=
  match x with
  | Returns raw => negb (String.eqb raw "")
  | Fails _ => false
  end.

Definition raw_of (x : read_outcome) : option string :=
  match x with
  | Returns raw => Some raw
  | Fails _ => None
  end.

(** The text a thread has bound to [raw_command] / [response], if it is at
    that point. *)
Definition holding (i : nat) (s : CLIInput) : list string :=
  match threads s !! i with
  | Some (Thread _ (Alive (Holding text))) => [text]
  | _ => []
  end.

(** Everything on its way to the owner through reader [i]: what is in the
    from-user queue, then the line the reader holds, then the lines the
    stream has ready. *)
Definition inbound (i : nat) (s : CLIInput) : list py_value :=
  (_from_user_queue s ++ map command_of (holding i s ++ omap raw_of (_stdin s)))%list.

(** Events during which reader [i] keeps delivering: no [stop], the owner
    leaves the from-user queue alone, and the terminal only supplies
    lines. *)
Definition calm_for_reader (e : event) : bool :=
  match e with
  | ev_stop | ev_get => false
  | ev_feed x => is_line x
  | _ => true
  end.

Definition fed (e : event) : list read_outcome :=
  match e with
  | ev_feed x => [x]
  | _ => []
  end.

(** Reader [i] is the one live reader, inside its loop, on a running
    bridge whose stream has only lines ready. *)
Definition reader_delivering (i : nat) (s : CLIInput) : Prop :=
  _running s = true
  ∧ (∃ p, threads s !! i = Some (reader (Alive p))
          ∧ p ≠ Flushing ∧ p ≠ Holding "")
  ∧ (∀ j t, j ≠ i → threads s !! j = Some t → is_reader t = true → alive t = false)
  ∧ Forall (λ x, is_line x = true) (_stdin s).

(** What writer [i] still owes stdout for the message it has taken. *)
Definition owed (i : nat) (s : CLIInput) : list out_call :=
  match threads s !! i with
  | Some (Thread _ (Alive (Holding response))) => emitted response
  | Some (Thread _ (Alive Flushing)) => [flush]
  | _ => []
  end.


Definition put_by (e : event) : list string :=
  match e with
  | ev_put m => [m]
  | _ => []
  end.



(** The fixture of [test_cli.py]: a bridge on empty queues and an empty
    mock stream, started by [setUp]; the writer is thread 0 and the reader
    thread 1. *)
Definition fresh : CLIInput := __init__ [] [] [] [].
Definition test_cli : CLIInput := (start true true fresh).2.

(** The fixture after the writer has gone into [get] on the empty queue
    and the owner has then called [stop]. *)
Definition stopped_while_waiting : CLIInput :=
  after [ev_thread 0; ev_stop] test_cli.

(** The fixture after the stream answered [''] and the reader put the
    end-of-input mark and left its loop (scenario [test_ending_session]). *)
Definition eof_seen : CLIInput :=
  after [ev_feed (Returns ""); ev_thread 1; ev_thread 1; ev_thread 1] test_cli.

(** The state right after thread [i], a reader holding [''], has put the
    end-of-input mark. *)
Definition eof_put (i : nat) (s : CLIInput) : CLIInput :=
  set_threads (<[i := reader Exited]> (threads s))
    (set_from_user_queue (Queue.put PyNone (_from_user_queue s)) s).

(** The state right after a read by thread [i] has raised [e]. *)
Definition read_failed (i : nat) (e : exn) (rest : list read_outcome) (s : CLIInput)
    : CLIInput :=
  set_threads (<[i := reader (Died e)]> (threads s)) (set_stdin rest s).

(** ** Further notions *)

(** The value of the flag after a schedule, read off the owner's calls
    alone: the last [start] or [stop] decides. *)
Definition flag_after (es : list event) (flag : bool) : bool :=
  foldl (λ r e, match e with
                | ev_start _ _ => true
                | ev_stop => false
                | _ => r
                end) flag es.

(** What a reader puts for what [readline] returned: the end-of-input mark
    for the empty string, the stripped line otherwise. *)
Definition value_of (raw : string) : py_value :=
  if decide (raw = "") then PyNone else command_of raw.

(** The message a writer thread has taken from the queue and not yet
    written. *)
Definition response_in_hand (t : thread) : list string :=
  match t with
  | Thread _output_commands_to_prompt_target (Alive (Holding response)) => [response]
  | _ => []
  end.

(** What a reader thread has got from [readline] and not yet put. *)
Definition raw_in_hand (t : thread) : list string :=
  match t with
  | Thread _read_commands_from_prompt_target (Alive (Holding raw_command)) => [raw_command]
  | _ => []
  end.

(** The strings stdout was asked to write, oldest first. *)
Definition written (out : list out_call) : list string :=
  out ≫= (λ c, match c with
               | write data => [data]
               | flush => []
               end).

(** Every message on the outbound side, as it will look or looks on
    stdout: already written, in a writer's hand, or still queued. *)
Definition outbound_all (s : CLIInput) : list string :=
  (written (_stdout s)
   ++ map PyStr.format_line ((threads s ≫= response_in_hand) ++ _to_user_queue s))%list.

(** What a read will put on the from-user queue, if anything. *)
Definition value_of_read (x : read_outcome) : option py_value :=
  value_of <$> raw_of x.

(** Every value on the inbound side: already queued, in a reader's hand,
    or still to be read. *)
Definition inbound_all (s : CLIInput) : list py_value :=
  (_from_user_queue s
   ++ map value_of (threads s ≫= raw_in_hand)
   ++ omap value_of_read (_stdin s))%list.

(** How many times the owner takes from the from-user queue. *)
Definition gets (es : list event) : nat :=
  length (es ≫= (λ e, match e with
                      | ev_get => [()]
                      | _ => []
                      end)).

(** How many calls of [write] or [flush] raised. *)
Definition raises (es : list event) : nat :=
  length (es ≫= (λ e, match e with
                      | ev_raise _ _ => [()]
                      | _ => []
                      end)).

(** From the started fixture: the reader goes into [readline]; the owner
    stops and starts again while it waits there; two lines arrive; the old
    reader takes the first, the new reader takes and puts the second, and
    only then the old reader puts the first. *)
Definition restart_race (l1 l2 : string) : list event :=
  [ev_thread 1; ev_stop; ev_start true true;
   ev_feed (Returns l1); ev_feed (Returns l2);
   ev_thread 1; ev_thread 3; ev_thread 3; ev_thread 3; ev_thread 1].

(** ** [test_cli.py]: the mock stream *)

Module MockStdInOut.

(** [MockStdInOut]: one object that stands in for stdin and stdout. *)
Record t := Build {
  received_data : list string;
  to_send_data : list string
}.

Definition __init__ : t := {| received_data := []; to_send_data := [] |}.

(** [readline]: spins while [to_send_data] is empty ([None]: no return
    yet), then returns [to_send_data.pop(0)]. *)
Definition readline (self : t) : option (string * t) :=
  match to_send_data self with
  | [] => None
  | x :: rest => Some (x, {| received_data := received_data self; to_send_data := rest |})
  end.

(** [write]: appends the string to [received_data]. *)
Definition write (written_str : string) (self : t) : t :=
  {| received_data := received_data self ++ [written_str];
     to_send_data := to_send_data self |}.

(** [flush]: nothing. *)
Definition flush (self : t) : t := self.

(** The test's [to_send_data.append(x)]. *)
Definition send (x : string) (self : t) : t :=
  {| received_data := received_data self; to_send_data := to_send_data self ++ [x] |}.

(** [n] calls of [readline] in a row: what they returned, or [None] when
    one of them never returns. *)
Fixpoint readlines (n : nat) (self : t) : option (list string * t) :=
  match n with
  | O => Some ([], self)
  | S k =>
      match readline self with
      | None => None
      | Some (x, self') =>
          match readlines k self' with
          | None => None
          | Some (xs, self'') => Some (x :: xs, self'')
          end
      end
  end.

End MockStdInOut.

(** The mock behind a bridge's streams: it has received what stdout was
    asked to write, and holds the strings stdin has still to return. *)
Definition mock_of (s : CLIInput) : MockStdInOut.t :=
  {| MockStdInOut.received_data := written (_stdout s);
     MockStdInOut.to_send_data := omap raw_of (_stdin s) |}.

(** The events a bridge on the mock goes through: the mock's [readline]
    returns strings only, and its [write] and [flush] raise nothing. *)
Definition mock_event (e : event) : bool :=
  match e with
  | ev_feed (Fails _) | ev_raise _ _ => false
  | _ => true
  end.

(** The calls made on the mock. *)
Inductive mock_call :=
  | calls_readline
  | calls_write (written_str : string)
  | calls_flush
  | calls_append (x : string)
  | calls_nothing.

(** The call an event makes on the mock, read off the kind of the event
    and, for a thread's action, the point the thread is at: a reader
    inside its call calls [readline], a writer with a response in hand
    calls [write] with the formatted response, a writer that has written
    calls [flush], and the test's feeding of a string is its
    [to_send_data.append].  No other event touches the mock. *)
Definition mock_call_of (e : event) (s : CLIInput) : mock_call :=
  match e with
  | ev_thread i =>
      match threads s !! i with
      | Some (Thread _read_commands_from_prompt_target (Alive InCall)) => calls_readline
      | Some (Thread _output_commands_to_prompt_target (Alive (Holding response))) =>
          calls_write (PyStr.format_line response)
      | Some (Thread _output_commands_to_prompt_target (Alive Flushing)) => calls_flush
      | _ => calls_nothing
      end
  | ev_feed (Returns x) => calls_append x
  | _ => calls_nothing
  end.

(** The mock after a call; [None] while the call has not returned. *)
Definition mock_after (c : mock_call) (self : MockStdInOut.t) : option MockStdInOut.t :=
  match c with
  | calls_readline => snd <$> MockStdInOut.readline self
  | calls_write written_str => Some (MockStdInOut.write written_str self)
  | calls_flush => Some (MockStdInOut.flush self)
  | calls_append x => Some (MockStdInOut.send x self)
  | calls_nothing => Some self
  end.

(** * Properties *)

(** ** Strings *)

Section Rstrip.
Import PyStr.

Example rstrip_one : rstrip ("abc" ++ nl) nl = "abc".
Proof. reflexivity. Qed.

Example rstrip_two : rstrip ("abc" ++ nl ++ nl) nl = "abc".
Proof. reflexivity. Qed.

Example rstrip_inner : rstrip ("a" ++ nl ++ "b" ++ nl) nl = "a" ++ nl ++ "b".
Proof. reflexivity. Qed.

Example rstrip_blank : rstrip nl nl = "".
Proof. reflexivity. Qed.

Lemma mem_nl c : mem c nl = true ↔ c = newline.
Proof.
  unfold nl; simpl. destruct (Ascii.eqb c newline) eqn:E.
  - apply Ascii.eqb_eq in E. tauto.
  - apply Ascii.eqb_neq in E. split; [discriminate | tauto].
Qed.

Lemma last_cons c s : s ≠ "" → last (String c s) = last s.
Proof. destruct s; [congruence | reflexivity]. Qed.

(** What is kept never ends in a stripped character. *)
Lemma rstrip_last s chars c :
  last (rstrip s chars) = Some c → mem c chars = false.
Proof.
  revert c. induction s as [|a s IH]; intros c; simpl; [discriminate|].
  destruct (rstrip s chars) as [|b kept] eqn:E.
  - destruct (mem a chars) eqn:Ha; simpl; [discriminate|].
    intros [= <-]. exact Ha.
  - intros H. apply IH. exact H.
Qed.

Lemma append_nil (t : string) : "" ++ t = t.
Proof. reflexivity. Qed.

Lemma append_cons c (s t : string) : String c s ++ t = String c (s ++ t).
Proof. reflexivity. Qed.

(** What is dropped is a run of newlines. *)
Lemma rstrip_decompose s :
  ∃ k, s = rstrip s nl ++ replicate k newline.
Proof.
  induction s as [|a s [k IH]]; cbn [rstrip].
  - exists 0. reflexivity.
  - destruct (rstrip s nl) as [|b kept] eqn:E.
    + rewrite append_nil in IH. destruct (mem a nl) eqn:Ha.
      * apply mem_nl in Ha. subst a. exists (S k).
        rewrite append_nil. simpl. by f_equal.
      * exists k. rewrite append_cons, append_nil. by f_equal.
    + exists k. rewrite append_cons. by f_equal.
Qed.

(** A string that does not end in a stripped character is kept whole. *)
Lemma rstrip_fixed s chars :
  (∀ c, last s = Some c → mem c chars = false) → rstrip s chars = s.
Proof.
  induction s as [|a s IH]; intros H; simpl; [reflexivity|].
  destruct s as [|b s'].
  - simpl. rewrite (H a eq_refl). reflexivity.
  - rewrite IH; [reflexivity|]. intros c Hc. apply H. exact Hc.
Qed.

Lemma rstrip_app_nl s : rstrip (s ++ nl) nl = rstrip s nl.
Proof.
  induction s as [|a s IH]; [reflexivity|].
  rewrite append_cons. simpl. rewrite IH. reflexivity.
Qed.

Lemma rstrip_line l : no_trailing_newline l → rstrip (l ++ nl) nl = l.
Proof.
  intros H. rewrite rstrip_app_nl. apply rstrip_fixed.
  intros c Hc. destruct (mem c nl) eqn:E; [|reflexivity].
  apply mem_nl in E. subst c. contradiction.
Qed.

Lemma last_app_nl l : last (l ++ nl) = Some newline.
Proof.
  induction l as [|a l IH]; [reflexivity|].
  rewrite append_cons. rewrite last_cons; [exact IH|].
  destruct l; discriminate.
Qed.

Lemma drop_last_app_nl l : drop_last (l ++ nl) = l.
Proof.
  induction l as [|a l IH]; [reflexivity|].
  rewrite append_cons. simpl. destruct (l ++ nl) eqn:E.
  - destruct l; discriminate.
  - by rewrite IH.
Qed.

Lemma strip_one_line l : strip_one_trailing_newline (l ++ nl) = l.
Proof.
  unfold strip_one_trailing_newline.
  rewrite last_app_nl, Ascii.eqb_refl. apply drop_last_app_nl.
Qed.

Lemma app_nl_not_empty l : l ++ nl ≠ "".
Proof. destruct l; discriminate. Qed.

End Rstrip.

(** ** The reader's treatment of one line *)

Section ReaderLine.
Import PyStr.

Lemma append_empty_r (s : string) : s ++ "" = s.
Proof. induction s as [|a s IH]; [reflexivity|]. rewrite append_cons. by f_equal. Qed.

(** A non-empty result of [readline] is stripped with [rstrip] and put on
    the from-user queue, and the loop goes on. *)
Lemma reader_line raw s :
  raw ≠ "" →
  _read_commands_from_prompt (Holding raw) s
  = Some (Alive LoopTest,
          set_from_user_queue (_from_user_queue s ++ [PyString (rstrip raw nl)]) s).
Proof.
  intros H. unfold _read_commands_from_prompt.
  destruct (decide (raw = "")) as [E|_]; [contradiction|]. reflexivity.
Qed.

(** The empty string puts [None] and leaves the loop. *)
Lemma reader_eof s :
  _read_commands_from_prompt (Holding "") s
  = Some (Exited, set_from_user_queue (_from_user_queue s ++ [PyNone]) s).
Proof. reflexivity. Qed.

Lemma strip_one_of_rstrip raw command k :
  raw = command ++ replicate k newline →
  no_trailing_newline command →
  (k ≤ 1)%nat →
  strip_one_trailing_newline raw = command.
Proof.
  intros -> Hc Hk. destruct k as [|[|k]]; [| |lia].
  - cbn [replicate]. rewrite append_empty_r.
    unfold strip_one_trailing_newline, no_trailing_newline in *.
    destruct (last command) as [c|]; [|reflexivity].
    destruct (Ascii.eqb c newline) eqn:E; [|reflexivity].
    apply Ascii.eqb_eq in E. congruence.
  - apply strip_one_line.
Qed.

(** C4, as the specification words it, fails: a result of [readline] that
    ends in two newlines loses both, where "exactly one" would keep one. *)
Lemma strip_exactly_one_counterexample :
  let raw := "abc" ++ nl ++ nl in
  let s := __init__ [] [] [] [] in
  raw ≠ "" ∧
  strip_one_trailing_newline raw = "abc" ++ nl ∧
  _read_commands_from_prompt (Holding raw) s
  = Some (Alive LoopTest, set_from_user_queue [PyString "abc"] s) ∧
  _read_commands_from_prompt (Holding raw) s
  ≠ Some (Alive LoopTest,
          set_from_user_queue
            (Queue.put (PyString (strip_one_trailing_newline raw)) (_from_user_queue s)) s).
Proof.
  cbv zeta. split; [discriminate|]. split; [reflexivity|]. split; [reflexivity|].
  vm_compute. discriminate.
Qed.

(** C4, amended: for every non-empty result of [readline] the reader puts
    the line with all its trailing newlines removed ([rstrip]): the line
    is what was put followed by a run of [k] newlines, what was put does
    not end in a newline, and whenever the line ends in at most one
    newline this is the same as stripping exactly one. *)
Theorem reader_strips_trailing_newlines raw s :
  raw ≠ "" →
  ∃ command k,
    _read_commands_from_prompt (Holding raw) s
    = Some (Alive LoopTest,
            set_from_user_queue (Queue.put (PyString command) (_from_user_queue s)) s)
    ∧ raw = command ++ replicate k newline
    ∧ no_trailing_newline command
    ∧ ((k ≤ 1)%nat → command = strip_one_trailing_newline raw).
Proof.
  intros H. destruct (rstrip_decompose raw) as [k Hk].
  exists (rstrip raw nl), k.
  assert (Hn : no_trailing_newline (rstrip raw nl)).
  { intros Hl. apply rstrip_last in Hl.
    assert (mem newline nl = true) by (by apply mem_nl). congruence. }
  split; [by apply reader_line|]. split; [exact Hk|]. split; [exact Hn|].
  intros Hle. symmetry. by eapply strip_one_of_rstrip.
Qed.

Lemma reader_strips_trailing_newlines_witness :
  "abc" ++ nl ++ nl ≠ "" ∧
  ∃ command k,
    _read_commands_from_prompt (Holding ("abc" ++ nl ++ nl)) (__init__ [] [] [] [])
    = Some (Alive LoopTest,
            set_from_user_queue
              (Queue.put (PyString command) (_from_user_queue (__init__ [] [] [] [])))
              (__init__ [] [] [] []))
    ∧ "abc" ++ nl ++ nl = command ++ replicate k newline
    ∧ no_trailing_newline command
    ∧ ((k ≤ 1)%nat → command = strip_one_trailing_newline ("abc" ++ nl ++ nl)).
Proof.
  split; [discriminate|].
  apply (reader_strips_trailing_newlines ("abc" ++ nl ++ nl) (__init__ [] [] [] [])).
  discriminate.
Defined.

(** C10: the end-of-input mark is [None], and no line can produce it.  On
    the empty string the reader puts [None] and leaves the loop; on a
    blank line (a lone newline) it puts the empty string; on every line
    that carries a terminator it puts a string, which is not [None]. *)
Theorem sentinel_differs_from_every_line s :
  _read_commands_from_prompt (Holding "") s
  = Some (Exited, set_from_user_queue (Queue.put PyNone (_from_user_queue s)) s)
  ∧ _read_commands_from_prompt (Holding nl) s
    = Some (Alive LoopTest,
            set_from_user_queue (Queue.put (PyString "") (_from_user_queue s)) s)
  ∧ ∀ l, ∃ command,
      _read_commands_from_prompt (Holding (l ++ nl)) s
      = Some (Alive LoopTest,
              set_from_user_queue (Queue.put (PyString command) (_from_user_queue s)) s)
      ∧ PyString command ≠ PyNone.
Proof.
  split; [reflexivity|]. split; [reflexivity|].
  intros l. exists (rstrip (l ++ nl) nl). split; [|discriminate].
  apply reader_line, app_nl_not_empty.
Qed.

End ReaderLine.

(** ** One action of a thread *)

Section ThreadStep.

Lemma block_argument : truthy OUTPUT_QUEUE_BLOCK_TIME = true.
Proof. reflexivity. Qed.

(** What the writer's call [get(OUTPUT_QUEUE_BLOCK_TIME)] does. *)
Lemma writer_get (q : list string) :
  Queue.get (truthy OUTPUT_QUEUE_BLOCK_TIME) None q
  = match q with
    | [] => Queue.WaitsForPut
    | x :: q' => Queue.Got x q'
    end.
Proof. rewrite block_argument. reflexivity. Qed.

Lemma thread_step_at i s tg p :
  threads s !! i = Some (Thread tg (Alive p)) →
  thread_step i s
  = match run_target tg p s with
    | Some (st, s') => Some (set_threads (<[i := Thread tg st]> (threads s')) s')
    | None => None
    end.
Proof. intros H. unfold thread_step. rewrite H. reflexivity. Qed.

Lemma thread_step_inv i s s' :
  thread_step i s = Some s' →
  ∃ tg p st s1,
    threads s !! i = Some (Thread tg (Alive p))
    ∧ run_target tg p s = Some (st, s1)
    ∧ s' = set_threads (<[i := Thread tg st]> (threads s1)) s1.
Proof.
  unfold thread_step. intros H.
  destruct (threads s !! i) as [[tg [|p| |e]]|] eqn:E; try discriminate.
  destruct (run_target tg p s) as [[st s1]|] eqn:R; [|discriminate].
  injection H as <-. by exists tg, p, st, s1.
Qed.

(** The loop bodies never touch the flag, the pool, the thread attributes
    or the log. *)
Lemma run_target_frame tg p s st s1 :
  run_target tg p s = Some (st, s1) →
  _running s1 = _running s ∧ threads s1 = threads s
  ∧ _to_user_thread s1 = _to_user_thread s
  ∧ _from_user_thread s1 = _from_user_thread s
  ∧ exc_log s1 = exc_log s.
Proof.
  destruct tg, p; simpl; intros H;
    repeat match type of H with
      | context [Queue.get ?b ?t ?q] => destruct (Queue.get b t q)
      | context [_stdin ?s] => destruct (_stdin s) as [|[?|?] ?]
      | context [decide ?P] => destruct (decide P)
      end;
    try discriminate; injection H as <- <-; done.
Qed.

Lemma thread_step_running i s s' :
  thread_step i s = Some s' → _running s' = _running s.
Proof.
  intros (tg & p & st & s1 & _ & R & ->)%thread_step_inv.
  apply run_target_frame in R. simpl. tauto.
Qed.



Lemma thread_step_other i j s s' :
  thread_step i s = Some s' → i ≠ j → threads s' !! j = threads s !! j.
Proof.
  intros (tg & p & st & s1 & _ & R & ->)%thread_step_inv Hij.
  apply run_target_frame in R as (_ & <- & _). simpl.
  by apply list_lookup_insert_ne.
Qed.

(** The thread that acts keeps its target and was alive. *)
Lemma thread_step_self i s s' :
  thread_step i s = Some s' →
  ∃ tg p st,
    threads s !! i = Some (Thread tg (Alive p))
    ∧ threads s' !! i = Some (Thread tg st).
Proof.
  intros (tg & p & st & s1 & Hi & R & ->)%thread_step_inv.
  apply run_target_frame in R as (_ & E & _). simpl. rewrite E.
  exists tg, p, st. split; [exact Hi|].
  apply list_lookup_insert_eq. by eapply lookup_lt_Some.
Qed.

(** A thread that is not alive has no action. *)
Lemma thread_step_dead i s t :
  threads s !! i = Some t → alive t = false → thread_step i s = None.
Proof.
  intros H Ha. unfold thread_step. rewrite H.
  destruct t as [tg [|p| |e]]; try reflexivity. discriminate.
Qed.

End ThreadStep.

(** ** A loop running by itself *)

Section Runs.
Import PyStr.

Lemma CLIInput_eq s s' :
  _stdin s = _stdin s' → _stdout s = _stdout s' →
  _to_user_queue s = _to_user_queue s' → _from_user_queue s = _from_user_queue s' →
  _running s = _running s' →
  _to_user_thread s = _to_user_thread s' → _from_user_thread s = _from_user_thread s' →
  threads s = threads s' → exc_log s = exc_log s' → s = s'.
Proof. destruct s, s'; simpl; intros; subst; reflexivity. Qed.

Lemma lookup_insert_self (l : list thread) i t t' :
  l !! i = Some t → <[i := t']> l !! i = Some t'.
Proof. intros H. apply list_lookup_insert_eq. by eapply lookup_lt_Some. Qed.

(** One turn of the reader's loop: test, read, strip and put. *)
Lemma run_reader_line i s raw rest fuel :
  threads s !! i = Some (reader (Alive LoopTest)) →
  _running s = true →
  _stdin s = Returns raw :: rest →
  raw ≠ "" →
  run_thread i (S (S (S fuel))) s
  = run_thread i fuel
      (set_from_user_queue (_from_user_queue s ++ [PyString (rstrip raw nl)])
         (set_stdin rest s)).
Proof.
  intros Hi Hr Hin Hraw. cbn [run_thread].
  rewrite (thread_step_at _ _ _ _ Hi).
  cbn [run_target _read_commands_from_prompt reader]. rewrite Hr.
  rewrite (thread_step_at i _ _read_commands_from_prompt_target InCall)
    by (by eapply lookup_insert_self).
  cbn [run_target _read_commands_from_prompt]. simpl _stdin. rewrite Hin.
  rewrite (thread_step_at i _ _read_commands_from_prompt_target (Holding raw))
    by (simpl; rewrite list_insert_insert_eq; by eapply lookup_insert_self).
  cbn [run_target]. rewrite reader_line by done.
  f_equal. apply CLIInput_eq; simpl; try reflexivity.
  rewrite !list_insert_insert_eq. by apply list_insert_id.
Qed.

(** With nothing left to read the reader goes into [readline] and waits. *)
Lemma run_reader_idle i s fuel :
  threads s !! i = Some (reader (Alive LoopTest)) →
  _running s = true →
  _stdin s = [] →
  0 < fuel →
  run_thread i fuel s = set_threads (<[i := reader (Alive InCall)]> (threads s)) s.
Proof.
  intros Hi Hr Hin Hf. destruct fuel as [|fuel]; [lia|]. cbn [run_thread].
  rewrite (thread_step_at _ _ _ _ Hi).
  cbn [run_target _read_commands_from_prompt reader]. rewrite Hr.
  destruct fuel as [|fuel]; [reflexivity|]. cbn [run_thread].
  rewrite (thread_step_at i _ _read_commands_from_prompt_target InCall)
    by (by eapply lookup_insert_self).
  cbn [run_target _read_commands_from_prompt]. simpl _stdin. rewrite Hin.
  reflexivity.
Qed.

Lemma run_reader i lines : ∀ s fuel,
  threads s !! i = Some (reader (Alive LoopTest)) →
  _running s = true →
  _stdin s = map Returns lines →
  Forall (λ raw, raw ≠ "") lines →
  3 * length lines < fuel →
  run_thread i fuel s
  = set_threads (<[i := reader (Alive InCall)]> (threads s))
      (set_from_user_queue
         (_from_user_queue s ++ map (λ raw, PyString (rstrip raw nl)) lines)
         (set_stdin [] s)).
Proof.
  induction lines as [|raw lines IH]; intros s fuel Hi Hr Hin Hne Hf.
  - rewrite run_reader_idle by (done || (simpl in Hf; lia)).
    apply CLIInput_eq; simpl; try done. by rewrite app_nil_r.
  - apply Forall_cons in Hne as [Hraw Hne]. simpl in Hin, Hf.
    destruct fuel as [|[|[|fuel]]]; try lia.
    rewrite (run_reader_line i s raw (map Returns lines)) by done.
    rewrite IH; try done; [|simpl; lia].
    apply CLIInput_eq; simpl; try done. by rewrite <- app_assoc.
Qed.

(** One turn of the writer's loop: test, get, write, flush. *)
Lemma run_writer_message i s m q fuel :
  threads s !! i = Some (writer (Alive LoopTest)) →
  _running s = true →
  _to_user_queue s = m :: q →
  run_thread i (S (S (S (S fuel)))) s
  = run_thread i fuel
      (set_stdout (_stdout s ++ emitted m) (set_to_user_queue q s)).
Proof.
  intros Hi Hr Hq. cbn [run_thread].
  rewrite (thread_step_at _ _ _ _ Hi).
  cbn [run_target _output_commands_to_prompt writer]. rewrite Hr.
  rewrite (thread_step_at i _ _output_commands_to_prompt_target InCall)
    by (by eapply lookup_insert_self).
  cbn [run_target _output_commands_to_prompt]. rewrite writer_get.
  simpl _to_user_queue. rewrite Hq.
  rewrite (thread_step_at i _ _output_commands_to_prompt_target (Holding m))
    by (simpl; rewrite list_insert_insert_eq; by eapply lookup_insert_self).
  cbn [run_target _output_commands_to_prompt].
  rewrite (thread_step_at i _ _output_commands_to_prompt_target Flushing)
    by (simpl; rewrite !list_insert_insert_eq; by eapply lookup_insert_self).
  cbn [run_target _output_commands_to_prompt].
  f_equal. apply CLIInput_eq; simpl; try reflexivity.
  - unfold emitted, format_line. by rewrite <- app_assoc.
  - rewrite !list_insert_insert_eq. by apply list_insert_id.
Qed.

Lemma run_writer_waits i s fuel :
  threads s !! i = Some (writer (Alive InCall)) →
  _to_user_queue s = [] →
  run_thread i fuel s = s.
Proof.
  intros Hi Hq. destruct fuel as [|fuel]; [reflexivity|]. cbn [run_thread].
  rewrite (thread_step_at _ _ _ _ Hi).
  cbn [run_target _output_commands_to_prompt writer]. rewrite writer_get, Hq.
  reflexivity.
Qed.

Lemma run_writer_idle i s fuel :
  threads s !! i = Some (writer (Alive LoopTest)) →
  _running s = true →
  _to_user_queue s = [] →
  0 < fuel →
  run_thread i fuel s = set_threads (<[i := writer (Alive InCall)]> (threads s)) s.
Proof.
  intros Hi Hr Hq Hf. destruct fuel as [|fuel]; [lia|]. cbn [run_thread].
  rewrite (thread_step_at _ _ _ _ Hi).
  cbn [run_target _output_commands_to_prompt writer]. rewrite Hr.
  apply run_writer_waits; [by eapply lookup_insert_self | done].
Qed.

Lemma run_writer i ms : ∀ s fuel,
  threads s !! i = Some (writer (Alive LoopTest)) →
  _running s = true →
  _to_user_queue s = ms →
  4 * length ms < fuel →
  run_thread i fuel s
  = set_threads (<[i := writer (Alive InCall)]> (threads s))
      (set_stdout (_stdout s ++ concat (map emitted ms)) (set_to_user_queue [] s)).
Proof.
  induction ms as [|m ms IH]; intros s fuel Hi Hr Hq Hf.
  - rewrite run_writer_idle by (done || (simpl in Hf; lia)).
    apply CLIInput_eq; simpl; try done. by rewrite app_nil_r.
  - simpl in Hf. destruct fuel as [|[|[|[|fuel]]]]; try lia.
    rewrite (run_writer_message i s m ms) by done.
    rewrite (IH _ fuel); try done; [|lia].
    apply CLIInput_eq; simpl; try done. by rewrite <- app_assoc.
Qed.


End Runs.

(** ** [start] and [stop] *)

Section Lifecycle.
Local Open Scope list_scope.

Lemma insert_at_length (l : list thread) x y rest :
  <[length l := y]> (l ++ x :: rest) = l ++ y :: rest.
Proof.
  replace (length l) with (length l + 0) at 1 by lia. by rewrite insert_app_r.
Qed.

Lemma insert_after_length (l : list thread) x y z rest :
  <[S (length l) := z]> (l ++ x :: y :: rest) = l ++ x :: z :: rest.
Proof.
  replace (S (length l)) with (length l + 1) by lia. by rewrite insert_app_r.
Qed.

Lemma lookup_after_length (l : list thread) x y rest :
  (l ++ x :: y :: rest) !! S (length l) = Some y.
Proof.
  rewrite lookup_app_r by lia.
  replace (S (length l) - length l) with 1 by lia. reflexivity.
Qed.

Lemma bind_unfold {A B} (m : M A) (k : A → M B) s :
  bind m k s
  = match m s with
    | (Return a, s') => k a s'
    | (Raise e, s') => (Raise e, s')
    | (Hang, s') => (Hang, s')
    end.
Proof. reflexivity. Qed.

Lemma deref_valid attr s i t :
  attr s = Some i → threads s !! i = Some t → deref attr s = (Return (i, t), s).
Proof. intros Ha Ht. unfold deref. by rewrite Ha, Ht. Qed.

Lemma Thread_start_unstarted granted attr s i tg :
  attr s = Some i →
  threads s !! i = Some (Thread tg Unstarted) →
  Thread_start granted attr s
  = if granted
    then (Return tt, set_threads (<[i := Thread tg (Alive LoopTest)]> (threads s)) s)
    else (Raise RuntimeError, s).
Proof.
  intros Ha Ht. unfold Thread_start. rewrite bind_unfold, (deref_valid _ _ _ _ Ha Ht).
  simpl. by destruct granted.
Qed.


Lemma start_when_running a b s :
  _running s = true → start a b s = (Return tt, s).
Proof. intros H. unfold start. rewrite bind_unfold. unfold read. by rewrite H. Qed.

Lemma stop_when_stopped s :
  _running s = false → stop s = (Return tt, s).
Proof. intros H. unfold stop. rewrite bind_unfold. unfold read. by rewrite H. Qed.

(** [start] on a stopped bridge, in closed form: two more threads in the
    pool, started as far as the operating system allows. *)
Lemma start_when_stopped a b s :
  _running s = false →
  start a b s
  = (if a && b then Return tt else Raise RuntimeError,
     set_threads
       (threads s ++ [writer (if a then Alive LoopTest else Unstarted);
                      reader (if a && b then Alive LoopTest else Unstarted)])
       (set_from_user_thread (Some (S (length (threads s))))
          (set_to_user_thread (Some (length (threads s)))
             (set_running true s)))).
Proof.
  intros H. unfold start. rewrite bind_unfold. unfold read. rewrite H. cbn [negb].
  set (n := length (threads s)).
  set (s2 := set_from_user_thread (Some (S n))
               (set_threads (threads s ++ [writer Unstarted; reader Unstarted])
                  (set_to_user_thread (Some n) (set_running true s)))).
  assert (E : (modify (set_running true) ;;; _start_threads a b) s
              = (Thread_start a _to_user_thread ;;;
                 Thread_start b _from_user_thread) s2).
  { transitivity
      ((Thread_start a _to_user_thread ;;; Thread_start b _from_user_thread)
         (set_from_user_thread (Some (length (threads s ++ [writer Unstarted])))
            (set_threads ((threads s ++ [writer Unstarted]) ++ [reader Unstarted])
               (set_to_user_thread (Some (length (threads s)))
                  (set_threads (threads s ++ [writer Unstarted])
                     (set_running true s)))))); [reflexivity|].
    f_equal. apply CLIInput_eq; simpl; try reflexivity.
    - rewrite length_app. simpl. f_equal. unfold n. lia.
    - by rewrite <- app_assoc. }
  rewrite E. clear E. rewrite bind_unfold.
  rewrite (Thread_start_unstarted a _ s2 n _output_commands_to_prompt_target);
    [|reflexivity|by apply list_lookup_middle].
  destruct a; [|reflexivity].
  rewrite (Thread_start_unstarted b _ _ (S n) _read_commands_from_prompt_target);
    [|reflexivity|].
  - subst s2 n. destruct b; cbn [andb]; f_equal.
    + apply CLIInput_eq; try reflexivity. simpl.
      by rewrite insert_at_length, insert_after_length.
    + apply CLIInput_eq; try reflexivity. simpl.
      by rewrite insert_at_length.
  - subst s2 n. simpl. rewrite insert_at_length. apply lookup_after_length.
Qed.



Lemma stop_when_running s :
  _running s = true → stop s = _join_threads (set_running false s).
Proof. intros H. unfold stop. rewrite bind_unfold. unfold read. by rewrite H. Qed.

Lemma set_exc_log_id s : set_exc_log (exc_log s) s = s.
Proof. by destruct s. Qed.

Lemma try_join_frame attr timeout msg s :
  ∃ log, (try_except (join attr timeout) RuntimeError (log_exception msg) s).2
         = set_exc_log log s.
Proof.
  unfold try_except, join, deref, lift. rewrite bind_unfold.
  destruct (attr s) as [i|]; [|exists (exc_log s); by rewrite set_exc_log_id].
  destruct (threads s !! i) as [[tg st]|];
    [|exists (exc_log s); by rewrite set_exc_log_id].
  unfold Thread_join. simpl thread_status.
  destruct st as [|p| |e]; [by eexists| |exists (exc_log s); by rewrite set_exc_log_id..].
  destruct timeout; exists (exc_log s); by rewrite set_exc_log_id.
Qed.

(** Whatever happens inside [_join_threads], only the log changes. *)
Lemma _join_threads_frame s :
  ∃ log, (_join_threads s).2 = set_exc_log log s.
Proof.
  unfold _join_threads. rewrite bind_unfold.
  destruct (try_join_frame _to_user_thread (Some (2 * OUTPUT_QUEUE_BLOCK_TIME)%Q)
              "To user thread didn't exit - ignoring" s) as [log1 E1].
  destruct (try_except _ _ _ s) as [[[]|e|] s1] eqn:T1; simpl in E1; subst s1;
    [|by exists log1..].
  destruct (try_join_frame _from_user_thread (Some (2 * OUTPUT_QUEUE_BLOCK_TIME)%Q)
              "From user thread didn't exit - ignoring" (set_exc_log log1 s))
    as [log2 E2].
  exists log2. rewrite E2. by destruct s.
Qed.

(** Whatever happens inside [stop], the object differs from before only in
    the flag and the log. *)
Lemma stop_frame s :
  ∃ log, (stop s).2 = set_exc_log log (set_running false s).
Proof.
  destruct (_running s) eqn:Hr.
  - rewrite stop_when_running by done. apply _join_threads_frame.
  - rewrite stop_when_stopped by done. exists (exc_log s). simpl.
    apply CLIInput_eq; simpl; done.
Qed.

(** [start] only adds to the pool and sets attributes and the flag. *)
Lemma start_frame a b s :
  ∃ new to_t from_t,
    (start a b s).2
    = set_threads (threads s ++ new)
        (set_from_user_thread from_t (set_to_user_thread to_t (set_running true s))).
Proof.
  destruct (_running s) eqn:Hr.
  - rewrite start_when_running by done.
    exists [], (_to_user_thread s), (_from_user_thread s).
    apply CLIInput_eq; simpl; try done. by rewrite app_nil_r.
  - rewrite start_when_stopped by done. by eexists _, _, _.
Qed.

End Lifecycle.

(** ** Schedules *)

Section Schedules.
Local Open Scope list_scope.

Lemma exec_trace es : ∀ s s', exec es s = Some s' → trace s es s'.
Proof.
  induction es as [|e es IH]; simpl; intros s s' H.
  - injection H as <-. constructor.
  - destruct (do_event e s) as [s1|] eqn:E; [|discriminate].
    econstructor; [exact E | by apply IH].
Qed.

Lemma trace_exec s es s' : trace s es s' → exec es s = Some s'.
Proof.
  induction 1 as [|s e s1 es s2 Hs _ IH]; [reflexivity|].
  simpl. unfold step in Hs. by rewrite Hs.
Qed.

Lemma trace_app s es s' es' s'' :
  trace s es s' → trace s' es' s'' → trace s (es ++ es') s''.
Proof. induction 1; simpl; [done|]. intros. econstructor; eauto. Qed.

(** An invariant of single events holds along a schedule whose events all
    pass the test [ok]. *)
Lemma trace_invariant (ok : event → bool) (P : CLIInput → Prop) :
  (∀ s e s', step s e s' → ok e = true → P s → P s') →
  ∀ s es s', trace s es s' → Forall (λ e, ok e = true) es → P s → P s'.
Proof.
  intros Hstep s es s' Ht. induction Ht as [|s e s1 es s2 Hs _ IH]; [done|].
  intros [He Hes]%Forall_cons Hp. apply IH; [done|]. by eapply Hstep.
Qed.

Lemma stop_clears_running s : _running (stop s).2 = false.
Proof. destruct (stop_frame s) as [log ->]. reflexivity. Qed.

Lemma start_sets_running a b s : _running (start a b s).2 = true.
Proof. destruct (start_frame a b s) as (new & to_t & from_t & ->). reflexivity. Qed.

(** A raising call ends the writer that made it and changes nothing
    else: the response it had in hand is gone, and what it had written is
    still written. *)
Lemma thread_raise_inv i e s s' :
  thread_raise i e s = Some s' →
  ∃ p, threads s !! i = Some (writer (Alive p))
       ∧ (p = Flushing ∨ ∃ response, p = Holding response)
       ∧ s' = set_threads (<[i := writer (Died e)]> (threads s)) s.
Proof.
  unfold thread_raise. intros H.
  destruct (threads s !! i) as [[[] [|p| |e']]|] eqn:E; try discriminate.
  destruct p as [| |response|]; simpl in H; try discriminate;
    injection H as <-; eexists; (split; [reflexivity|]); split; eauto.
Qed.

(** Only [stop] clears the flag. *)
Lemma step_keeps_running s e s' :
  step s e s' → is_stop e = false → _running s = true → _running s' = true.
Proof.
  unfold step. destruct e as [i|a b| |x|m| |i ex]; simpl; intros H Hs Hr; try discriminate.
  - by rewrite (thread_step_running _ _ _ H).
  - injection H as <-. apply start_sets_running.
  - by injection H as <-.
  - by injection H as <-.
  - destruct (_from_user_queue s); [discriminate|]. by injection H as <-.
  - by destruct (thread_raise_inv _ _ _ _ H) as (p & _ & _ & ->).
Qed.

(** Only [start] sets it. *)
Lemma step_keeps_stopped s e s' :
  step s e s' → is_start e = false → _running s = false → _running s' = false.
Proof.
  unfold step. destruct e as [i|a b| |x|m| |i ex]; simpl; intros H Hs Hr; try discriminate.
  - by rewrite (thread_step_running _ _ _ H).
  - injection H as <-. apply stop_clears_running.
  - by injection H as <-.
  - by injection H as <-.
  - destruct (_from_user_queue s); [discriminate|]. by injection H as <-.
  - by destruct (thread_raise_inv _ _ _ _ H) as (p & _ & _ & ->).
Qed.

Lemma trace_keeps_running s es s' :
  trace s es s' → Forall (λ e, is_stop e = false) es →
  _running s = true → _running s' = true.
Proof.
  intros Ht Hes.
  refine (trace_invariant (λ e, negb (is_stop e)) (λ s, _running s = true)
            _ s es s' Ht _).
  - intros s1 e s2 Hs He. apply (step_keeps_running _ _ _ Hs).
    by destruct (is_stop e).
  - eapply Forall_impl; [exact Hes|]. by intros e ->.
Qed.

Lemma trace_keeps_stopped s es s' :
  trace s es s' → Forall (λ e, is_start e = false) es →
  _running s = false → _running s' = false.
Proof.
  intros Ht Hes.
  refine (trace_invariant (λ e, negb (is_start e)) (λ s, _running s = false)
            _ s es s' Ht _).
  - intros s1 e s2 Hs He. apply (step_keeps_stopped _ _ _ Hs).
    by destruct (is_start e).
  - eapply Forall_impl; [exact Hes|]. by intros e ->.
Qed.

End Schedules.

(** ** Lifecycle properties *)

Section LifecycleClaims.
Local Open Scope list_scope.

(** C7: [start] and [stop] are idempotent.  A second [start] straight
    after a first returns and leaves the object, the pool included, as the
    first left it, and so does a second [stop] after a first.  The same
    holds when the threads, the terminal and the owner's queue operations
    act in between: after [start], as long as no [stop] intervenes,
    another [start] changes nothing; after [stop], as long as no [start]
    intervenes, another [stop] changes nothing. *)
Theorem start_and_stop_idempotent s a b a' b' es s1 es' s2 :
  trace (start a b s).2 es s1 → Forall (λ e, is_stop e = false) es →
  trace (stop s).2 es' s2 → Forall (λ e, is_start e = false) es' →
  start a' b' (start a b s).2 = (Return tt, (start a b s).2)
  ∧ stop (stop s).2 = (Return tt, (stop s).2)
  ∧ start a' b' s1 = (Return tt, s1)
  ∧ stop s2 = (Return tt, s2).
Proof.
  intros Ht Hes Ht' Hes'.
  split; [apply start_when_running, start_sets_running|].
  split; [apply stop_when_stopped, stop_clears_running|].
  split.
  - apply start_when_running.
    eapply trace_keeps_running; eauto using start_sets_running.
  - apply stop_when_stopped.
    eapply trace_keeps_stopped; eauto using stop_clears_running.
Qed.

Lemma start_and_stop_idempotent_witness :
  let s1 := after [ev_thread 0; ev_put "Hello user"%string; ev_thread 0]
              (start true true test_cli).2 in
  let s2 := after [ev_thread 0; ev_feed (Returns "")] (stop test_cli).2 in
  start true true (start true true test_cli).2
  = (Return tt, (start true true test_cli).2)
  ∧ stop (stop test_cli).2 = (Return tt, (stop test_cli).2)
  ∧ start true true s1 = (Return tt, s1)
  ∧ stop s2 = (Return tt, s2).
Proof.
  apply (start_and_stop_idempotent test_cli true true true true
           [ev_thread 0; ev_put "Hello user"%string; ev_thread 0] _
           [ev_thread 0; ev_feed (Returns "")] _).
  - apply exec_trace. by vm_compute.
  - repeat constructor.
  - apply exec_trace. by vm_compute.
  - repeat constructor.
Defined.

(** C9: neither [stop] nor [start] touches a channel.  After either call
    both queues hold what they held before, in the same order, the streams
    are as they were, and every thread is where it was, so a message that
    a loop had already taken is still in its hands; [start] only adds
    threads at the end of the pool. *)
Theorem start_stop_keep_messages s a b :
  (_to_user_queue (stop s).2 = _to_user_queue s
   ∧ _from_user_queue (stop s).2 = _from_user_queue s
   ∧ _stdin (stop s).2 = _stdin s
   ∧ _stdout (stop s).2 = _stdout s
   ∧ threads (stop s).2 = threads s)
  ∧ (_to_user_queue (start a b s).2 = _to_user_queue s
     ∧ _from_user_queue (start a b s).2 = _from_user_queue s
     ∧ _stdin (start a b s).2 = _stdin s
     ∧ _stdout (start a b s).2 = _stdout s
     ∧ ∃ new, threads (start a b s).2 = threads s ++ new).
Proof.
  split.
  - destruct (stop_frame s) as [log ->]. by simpl.
  - destruct (start_frame a b s) as (new & to_t & from_t & ->). simpl.
    repeat split. by exists new.
Qed.

End LifecycleClaims.

(** ** [stop] always comes back *)

Section StopReturns.
Local Open Scope list_scope.








(** When the operating system refused the threads, both [join] calls raise
    [RuntimeError]; both are caught and logged. *)
Example stop_logs_failed_joins :
  stop (start false true fresh).2
  = (Return tt,
     set_exc_log ["To user thread didn't exit - ignoring"%string;
                  "From user thread didn't exit - ignoring"%string]
       (set_running false (start false true fresh).2)).
Proof. reflexivity. Qed.

(** The timeout handed to [join] is what makes it come back: without one
    it would wait for a live thread to end. *)
Example join_needs_its_timeout :
  Thread_join (reader (Alive InCall)) (Some (2 * OUTPUT_QUEUE_BLOCK_TIME)%Q) = Return tt
  ∧ Thread_join (reader (Alive InCall)) None = Hang
  ∧ (2 * OUTPUT_QUEUE_BLOCK_TIME == 1 # 2)%Q.
Proof. repeat split. Qed.

End StopReturns.

(** ** Threads that have ended, and threads that wait *)

Section Stability.
Local Open Scope list_scope.

(** No event changes a thread other than that thread's own action. *)
Lemma step_keeps_thread s e s' i t :
  step s e s' → e ≠ ev_thread i → (∀ ex, e ≠ ev_raise i ex) →
  threads s !! i = Some t → threads s' !! i = Some t.
Proof.
  unfold step. intros H He Hx Hi. destruct e as [j|a b| |x|m| |j ex]; simpl in H.
  - rewrite (thread_step_other _ _ _ _ H); [done | congruence].
  - injection H as <-. destruct (start_frame a b s) as (new & to_t & from_t & ->).
    simpl. by apply lookup_app_l_Some.
  - injection H as <-. destruct (stop_frame s) as [log ->]. done.
  - by injection H as <-.
  - by injection H as <-.
  - destruct (_from_user_queue s); [discriminate|]. by injection H as <-.
  - destruct (thread_raise_inv _ _ _ _ H) as (p & _ & _ & ->). simpl.
    rewrite list_lookup_insert_ne; [done|]. intros ->. by apply (Hx ex).
Qed.

(** Only a live writer with a response in hand, or one about to flush,
    makes a call that can raise. *)
Lemma thread_raise_dead i e s t :
  threads s !! i = Some t → alive t = false → thread_raise i e s = None.
Proof.
  intros Hi Ha. destruct (thread_raise i e s) as [s'|] eqn:E; [|done].
  destruct (thread_raise_inv _ _ _ _ E) as (p & Hp & _). rewrite Hi in Hp.
  injection Hp as ->. discriminate.
Qed.

Lemma thread_raise_in_get i e s :
  threads s !! i = Some (writer (Alive InCall)) → thread_raise i e s = None.
Proof.
  intros Hi. destruct (thread_raise i e s) as [s'|] eqn:E; [|done].
  destruct (thread_raise_inv _ _ _ _ E) as (p & Hp & [->|[r ->]] & _);
    rewrite Hi in Hp; discriminate.
Qed.

(** A thread that has ended, or was never started, stays as it is. *)
Lemma trace_keeps_dead s es s' i t :
  trace s es s' → threads s !! i = Some t → alive t = false → threads s' !! i = Some t.
Proof.
  induction 1 as [|s e s1 es s2 Hs _ IH]; [done|]. intros Hi Ha.
  apply IH; [|done]. eapply step_keeps_thread; [exact Hs| | |exact Hi].
  - intros ->. unfold step in Hs. simpl in Hs.
    by rewrite (thread_step_dead _ _ _ Hi Ha) in Hs.
  - intros ex ->. unfold step in Hs. simpl in Hs.
    by rewrite (thread_raise_dead _ _ _ _ Hi Ha) in Hs.
Qed.

(** The loops never add to the to-user queue; the reader does not touch
    it. *)
Lemma run_target_to_user_queue tg p s st s1 :
  run_target tg p s = Some (st, s1) →
  _to_user_queue s1 = _to_user_queue s
  ∨ ∃ x, _to_user_queue s = x :: _to_user_queue s1.
Proof.
  destruct tg, p; simpl; intros H;
    repeat match type of H with
      | context [Queue.get ?b ?t ?q] => rewrite writer_get in H
      | context [match _to_user_queue ?s with _ => _ end] =>
          destruct (_to_user_queue s) eqn:?
      | context [_stdin ?s] => destruct (_stdin s) as [|[?|?] ?]
      | context [decide ?P] => destruct (decide P)
      end;
    try discriminate; injection H as <- <-; simpl; eauto.
Qed.

(** The writer never touches the from-user queue or stdin. *)
Lemma writer_frame p s st s1 :
  _output_commands_to_prompt Accepted p s = Some (st, s1) →
  _from_user_queue s1 = _from_user_queue s ∧ _stdin s1 = _stdin s.
Proof.
  destruct p; simpl; intros H;
    repeat match type of H with
      | context [Queue.get ?b ?t ?q] => destruct (Queue.get b t q)
      end;
    try discriminate; by injection H as <- <-.
Qed.

(** The reader never touches stdout. *)
Lemma reader_frame p s st s1 :
  _read_commands_from_prompt p s = Some (st, s1) →
  _to_user_queue s1 = _to_user_queue s ∧ _stdout s1 = _stdout s.
Proof.
  destruct p; simpl; intros H;
    repeat match type of H with
      | context [_stdin ?s] => destruct (_stdin s) as [|[?|?] ?]
      | context [decide ?P] => destruct (decide P)
      end;
    try discriminate; by injection H as <- <-.
Qed.

Lemma thread_step_keeps_empty i s s' :
  thread_step i s = Some s' → _to_user_queue s = [] → _to_user_queue s' = [].
Proof.
  intros (tg & p & st & s1 & _ & R & ->)%thread_step_inv Hq. simpl.
  destruct (run_target_to_user_queue _ _ _ _ _ R) as [E | [x E]]; congruence.
Qed.

(** A writer inside [get] on an empty queue has no action. *)
Lemma writer_blocked i s :
  threads s !! i = Some (writer (Alive InCall)) →
  _to_user_queue s = [] →
  thread_step i s = None.
Proof.
  intros Hi Hq. rewrite (thread_step_at _ _ _ _ Hi).
  cbn [run_target _output_commands_to_prompt]. by rewrite writer_get, Hq.
Qed.

(** And nothing but a [put] by the owner gets it out of there: no thread,
    no [start], no [stop], no input. *)
Lemma writer_stays_blocked s es s' i :
  trace s es s' →
  Forall (λ e, is_put e = false) es →
  threads s !! i = Some (writer (Alive InCall)) →
  _to_user_queue s = [] →
  threads s' !! i = Some (writer (Alive InCall)) ∧ _to_user_queue s' = [].
Proof.
  induction 1 as [|s e s1 es s2 Hs _ IH]; [done|].
  intros [He Hes]%Forall_cons Hi Hq. apply IH; [done| |].
  - eapply step_keeps_thread; [exact Hs| | |exact Hi].
    + intros ->. unfold step in Hs. simpl in Hs.
      by rewrite (writer_blocked _ _ Hi Hq) in Hs.
    + intros ex ->. unfold step in Hs. simpl in Hs.
      by rewrite (thread_raise_in_get _ _ _ Hi) in Hs.
  - unfold step in Hs. destruct e as [j|a b| |x|m| |j ex]; simpl in Hs, He; try discriminate.
    + by eapply thread_step_keeps_empty.
    + injection Hs as <-. destruct (start_frame a b s) as (new & to_t & from_t & ->). done.
    + injection Hs as <-. destruct (stop_frame s) as [log ->]. done.
    + by injection Hs as <-.
    + destruct (_from_user_queue s); [discriminate|]. by injection Hs as <-.
    + by destruct (thread_raise_inv _ _ _ _ Hs) as (p & _ & _ & ->).
Qed.

End Stability.

(** ** End of input and errors of the stream *)

Section ReaderEnds.
Local Open Scope list_scope.

(** While the flag stays set and no reader is alive, nothing is added to
    the from-user queue and no reader comes to life: [start] does nothing,
    and the writers do not touch that queue. *)
Lemma no_reader_step s e s' q0 :
  step s e s' → is_stop e = false →
  _running s = true
  ∧ (∀ j t, threads s !! j = Some t → is_reader t = true → alive t = false)
  ∧ _from_user_queue s `suffix_of` q0 →
  _running s' = true
  ∧ (∀ j t, threads s' !! j = Some t → is_reader t = true → alive t = false)
  ∧ _from_user_queue s' `suffix_of` q0.
Proof.
  intros Hs He (Hr & Hno & Hq).
  split; [by eapply step_keeps_running|].
  unfold step in Hs. destruct e as [k|a b| |x|m| |k ex]; simpl in Hs, He; try discriminate.
  - destruct (thread_step_inv _ _ _ Hs) as (tg & p & st & s1 & Hk & R & ->).
    destruct tg.
    2:{ specialize (Hno k _ Hk eq_refl). discriminate. }
    destruct (run_target_frame _ _ _ _ _ R) as (_ & Et & _).
    apply writer_frame in R as [Eq _]. simpl. rewrite Eq, Et. split; [|done].
    intros j t Hj. destruct (decide (k = j)) as [<-|Hne].
    + rewrite list_lookup_insert_eq in Hj by (by eapply lookup_lt_Some).
      by injection Hj as <-.
    + rewrite list_lookup_insert_ne in Hj by done. intros Ht. by eapply Hno.
  - injection Hs as <-. by rewrite start_when_running.
  - by injection Hs as <-.
  - by injection Hs as <-.
  - destruct (_from_user_queue s) as [|v q] eqn:E; [discriminate|].
    injection Hs as <-. simpl. split; [done|].
    by eapply suffix_cons_l.
  - destruct (thread_raise_inv _ _ _ _ Hs) as (p & Hk & _ & ->). simpl.
    split; [|done].
    intros j t Hj. destruct (decide (k = j)) as [<-|Hne].
    + rewrite list_lookup_insert_eq in Hj by (by eapply lookup_lt_Some).
      by injection Hj as <-.
    + rewrite list_lookup_insert_ne in Hj by done. intros Ht. by eapply Hno.
Qed.

Lemma no_reader_trace s es s' q0 :
  trace s es s' → Forall (λ e, is_stop e = false) es →
  _running s = true
  ∧ (∀ j t, threads s !! j = Some t → is_reader t = true → alive t = false)
  ∧ _from_user_queue s `suffix_of` q0 →
  _running s' = true
  ∧ (∀ j t, threads s' !! j = Some t → is_reader t = true → alive t = false)
  ∧ _from_user_queue s' `suffix_of` q0.
Proof.
  induction 1 as [|s e s1 es s2 Hs _ IH]; [done|].
  intros [He Hes]%Forall_cons Hp. apply IH; [done|]. by eapply no_reader_step.
Qed.

(** C3: when the read of a reader raises, the reader's loop is over, and
    nothing else is: the one action takes the failing read off the stream
    and marks the thread as ended by the exception, leaving the flag, both
    queues, stdout, the log and every other thread as they were; and
    whatever happens afterwards, the thread stays ended and never acts
    again, as after the end of the stream.  (Unlike at the end of the
    stream, nothing is put on the from-user queue.) *)
Theorem read_error_ends_reader_only i s e rest es s' :
  threads s !! i = Some (reader (Alive InCall)) →
  _stdin s = Fails e :: rest →
  trace (read_failed i e rest s) es s' →
  thread_step i s = Some (read_failed i e rest s)
  ∧ threads s' !! i = Some (reader (Died e))
  ∧ thread_step i s' = None.
Proof.
  intros Hi Hin Ht.
  assert (Hd : threads (read_failed i e rest s) !! i = Some (reader (Died e))).
  { simpl. by eapply lookup_insert_self. }
  split.
  - rewrite (thread_step_at _ _ _ _ Hi).
    cbn [run_target _read_commands_from_prompt]. by rewrite Hin.
  - assert (threads s' !! i = Some (reader (Died e)))
      by (by eapply trace_keeps_dead).
    split; [done|]. by eapply thread_step_dead.
Qed.

Lemma read_error_ends_reader_only_witness :
  let s := after [ev_thread 1; ev_feed (Fails OSError)] test_cli in
  let s' := after [ev_put "Hello user"%string; ev_thread 0; ev_thread 0; ev_stop]
              (read_failed 1 OSError [] s) in
  thread_step 1 s = Some (read_failed 1 OSError [] s)
  ∧ threads s' !! 1 = Some (reader (Died OSError))
  ∧ thread_step 1 s' = None.
Proof.
  apply (read_error_ends_reader_only 1
           (after [ev_thread 1; ev_feed (Fails OSError)] test_cli) OSError []
           [ev_put "Hello user"%string; ev_thread 0; ev_thread 0; ev_stop]).
  - by vm_compute.
  - by vm_compute.
  - apply exec_trace. by vm_compute.
Defined.

(** C2, as stated, fails: after the end of the stream has been seen and the
    mark put, [stop] followed by [start] launches a new reader, which reads
    the stream again; a stream still at its end then yields a second
    mark. *)
Lemma restart_after_eof_counterexample :
  let restart := [ev_stop; ev_start true true; ev_feed (Returns "");
                  ev_thread 3; ev_thread 3; ev_thread 3] in
  _from_user_queue eof_seen = [PyNone]
  ∧ threads eof_seen !! 1 = Some (reader Exited)
  ∧ trace eof_seen restart (after restart eof_seen)
  ∧ _from_user_queue (after restart eof_seen) = [PyNone; PyNone]
  ∧ ¬ (_from_user_queue (after restart eof_seen) `suffix_of` _from_user_queue eof_seen).
Proof.
  cbv zeta. split; [by vm_compute|]. split; [by vm_compute|].
  split; [apply exec_trace; by vm_compute|].
  assert (E : _from_user_queue
                (after [ev_stop; ev_start true true; ev_feed (Returns "");
                        ev_thread 3; ev_thread 3; ev_thread 3] eof_seen)
              = [PyNone; PyNone]) by (by vm_compute).
  split; [exact E|]. rewrite E.
  replace (_from_user_queue eof_seen) with [PyNone] by (by vm_compute).
  intros [k Hk]. apply (f_equal length) in Hk. rewrite length_app in Hk.
  simpl in Hk. lia.
Qed.

(** C2, amended: when [readline] has returned the empty string to the only
    live reader while the flag is set, that reader puts the end-of-input
    mark once and leaves its loop for good; and as long as [stop] is not
    called, whatever else happens, further calls of [start] included,
    nothing more is added to the from-user queue (it can only lose items at
    its left end to the owner) and no reader is alive. *)
Theorem eof_is_final_until_stop i s es s' :
  threads s !! i = Some (reader (Alive (Holding ""))) →
  _running s = true →
  (∀ j t, j ≠ i → threads s !! j = Some t → is_reader t = true → alive t = false) →
  Forall (λ e, is_stop e = false) es →
  trace (eof_put i s) es s' →
  thread_step i s = Some (eof_put i s)
  ∧ _from_user_queue (eof_put i s) = _from_user_queue s ++ [PyNone]
  ∧ threads s' !! i = Some (reader Exited)
  ∧ _from_user_queue s' `suffix_of` _from_user_queue s ++ [PyNone]
  ∧ (∀ j t, threads s' !! j = Some t → is_reader t = true → alive t = false).
Proof.
  intros Hi Hr Hno Hes Ht.
  assert (Hd : threads (eof_put i s) !! i = Some (reader Exited)).
  { simpl. by eapply lookup_insert_self. }
  split.
  { rewrite (thread_step_at _ _ _ _ Hi). reflexivity. }
  split; [reflexivity|].
  split; [by eapply trace_keeps_dead|].
  destruct (no_reader_trace _ _ _ (_from_user_queue s ++ [PyNone]) Ht Hes)
    as (_ & Hnone & Hsuf); [|done].
  split; [exact Hr|]. split; [|done].
  intros j t Hj. simpl in Hj. destruct (decide (i = j)) as [<-|Hne].
  - simpl in Hd. rewrite Hd in Hj. by injection Hj as <-.
  - rewrite list_lookup_insert_ne in Hj by done. intros Hrd. by eapply Hno.
Qed.

Lemma eof_is_final_until_stop_witness :
  let s := after [ev_feed (Returns ""); ev_thread 1; ev_thread 1] test_cli in
  let es := [ev_start true true; ev_feed (Returns ""); ev_thread 0; ev_get;
             ev_start true true] in
  thread_step 1 s = Some (eof_put 1 s)
  ∧ _from_user_queue (eof_put 1 s) = _from_user_queue s ++ [PyNone]
  ∧ threads (after es (eof_put 1 s)) !! 1 = Some (reader Exited)
  ∧ _from_user_queue (after es (eof_put 1 s)) `suffix_of` _from_user_queue s ++ [PyNone]
  ∧ (∀ j t, threads (after es (eof_put 1 s)) !! j = Some t →
            is_reader t = true → alive t = false).
Proof.
  apply (eof_is_final_until_stop 1
           (after [ev_feed (Returns ""); ev_thread 1; ev_thread 1] test_cli)
           [ev_start true true; ev_feed (Returns ""); ev_thread 0; ev_get;
            ev_start true true]).
  - by vm_compute.
  - by vm_compute.
  - intros [|[|j]] t Hne Hj; try done.
    vm_compute in Hj. injection Hj as <-. discriminate.
  - repeat constructor.
  - apply exec_trace. by vm_compute.
Defined.

End ReaderEnds.

(** ** The writer and the flag *)

Section WriterPoll.
Local Open Scope list_scope.

(** The call as written hands the constant to [block]; with [timeout] left
    at [None], [get] on an empty queue sleeps with no deadline.  Passing the
    constant as the timeout would have raised [queue.Empty] after a quarter
    of a second. *)
Example get_as_called_and_as_meant :
  Queue.get (A := string) (truthy OUTPUT_QUEUE_BLOCK_TIME) None [] = Queue.WaitsForPut
  ∧ Queue.get (A := string) true (Some OUTPUT_QUEUE_BLOCK_TIME) []
    = Queue.RaisesEmpty OUTPUT_QUEUE_BLOCK_TIME.
Proof. split; reflexivity. Qed.

(** C1 at its failing input: the writer is inside [get] on the empty queue
    when the owner calls [stop].  The flag is now false, yet the wait has no
    deadline, and whatever happens next short of a [put] on the to-user
    queue, the writer is still inside [get]: it never tests the flag again
    and never leaves its loop. *)
Theorem writer_never_rechecks_flag es s' :
  Forall (λ e, is_put e = false) es →
  trace stopped_while_waiting es s' →
  _running stopped_while_waiting = false
  ∧ Queue.get (truthy OUTPUT_QUEUE_BLOCK_TIME) None (_to_user_queue stopped_while_waiting)
    = Queue.WaitsForPut
  ∧ threads s' !! 0 = Some (writer (Alive InCall))
  ∧ thread_step 0 s' = None.
Proof.
  intros Hes Ht. split; [by vm_compute|]. split; [by vm_compute|].
  destruct (writer_stays_blocked _ _ _ 0 Ht Hes) as [Hi Hq]; [by vm_compute..|].
  split; [exact Hi | by apply writer_blocked].
Qed.

Lemma writer_never_rechecks_flag_witness :
  let es := [ev_thread 1; ev_feed (Returns ""); ev_start true true; ev_thread 3;
             ev_stop] in
  _running stopped_while_waiting = false
  ∧ Queue.get (truthy OUTPUT_QUEUE_BLOCK_TIME) None (_to_user_queue stopped_while_waiting)
    = Queue.WaitsForPut
  ∧ threads (after es stopped_while_waiting) !! 0 = Some (writer (Alive InCall))
  ∧ thread_step 0 (after es stopped_while_waiting) = None.
Proof.
  apply (writer_never_rechecks_flag
           [ev_thread 1; ev_feed (Returns ""); ev_start true true; ev_thread 3;
            ev_stop]).
  - repeat constructor.
  - apply exec_trace. by vm_compute.
Defined.

End WriterPoll.

(** ** Delivery under any schedule *)

Section ReaderSchedules.
Local Open Scope list_scope.

Lemma is_line_inv x : is_line x = true → ∃ raw, x = Returns raw ∧ raw ≠ ""%string.
Proof.
  destruct x as [raw|e]; [|discriminate]. simpl. intros H. exists raw. split; [done|].
  intros ->. discriminate.
Qed.

Lemma lines_ready stdin :
  Forall (λ x, is_line x = true) stdin →
  stdin = map Returns (omap raw_of stdin)
  ∧ Forall (λ raw, raw ≠ ""%string) (omap raw_of stdin).
Proof.
  induction 1 as [|x l Hx _ [IH1 IH2]]; [done|].
  apply is_line_inv in Hx as (raw & -> & Hraw). simpl. split.
  - by f_equal.
  - by constructor.
Qed.

Lemma holding_at i s tg st :
  threads s !! i = Some (Thread tg st) →
  holding i s = match st with Alive (Holding text) => [text] | _ => [] end.
Proof. intros H. unfold holding. by rewrite H. Qed.

(** One calm event keeps the reader delivering and adds to what is on its
    way exactly the line the terminal supplied, if any, at the far end. *)
Lemma reader_delivering_step i s e s' :
  step s e s' → calm_for_reader e = true → reader_delivering i s →
  reader_delivering i s'
  ∧ inbound i s' = inbound i s ++ map command_of (omap raw_of (fed e)).
Proof.
  intros Hs He (Hr & (p & Hi & Hp1 & Hp2) & Hno & Hin).
  unfold step in Hs. destruct e as [k|a b| |x|m| |k ex]; simpl in Hs, He; try discriminate.
  - destruct (decide (k = i)) as [->|Hk].
    + rewrite (thread_step_at _ _ _ _ Hi) in Hs.
      destruct p as [| |raw|]; [| | |done];
        cbn [run_target _read_commands_from_prompt] in Hs.
      * rewrite Hr in Hs. injection Hs as <-. split.
        -- split; [done|]. split; [|split; [|done]].
           ++ exists InCall. split; [by eapply lookup_insert_self | done].
           ++ intros j t Hj. simpl. rewrite list_lookup_insert_ne by done. by apply Hno.
        -- unfold inbound. simpl.
           rewrite (holding_at i s _ _ Hi).
           rewrite (holding_at i _ _read_commands_from_prompt_target (Alive InCall))
             by (by eapply lookup_insert_self).
           by rewrite app_nil_r.
      * destruct (_stdin s) as [|x rest] eqn:E; [discriminate|].
        apply Forall_cons in Hin as [Hx Hrest].
        apply is_line_inv in Hx as (raw & -> & Hraw).
        injection Hs as <-. split.
        -- split; [done|]. split; [|split; [|done]].
           ++ exists (Holding raw). split; [by eapply lookup_insert_self|].
              split; [done | congruence].
           ++ intros j t Hj. simpl. rewrite list_lookup_insert_ne by done. by apply Hno.
        -- unfold inbound. simpl.
           rewrite (holding_at i s _ _ Hi), E.
           rewrite (holding_at i _ _read_commands_from_prompt_target (Alive (Holding raw)))
             by (by eapply lookup_insert_self).
           by rewrite app_nil_r.
      * destruct (decide (raw = ""%string)) as [->|Hraw]; [done|].
        injection Hs as <-. split.
        -- split; [done|]. split; [|split; [|done]].
           ++ exists LoopTest. split; [by eapply lookup_insert_self | done].
           ++ intros j t Hj. simpl. rewrite list_lookup_insert_ne by done. by apply Hno.
        -- unfold inbound. simpl.
           rewrite (holding_at i s _ _ Hi).
           rewrite (holding_at i _ _read_commands_from_prompt_target (Alive LoopTest))
             by (by eapply lookup_insert_self).
           simpl. unfold Queue.put. by rewrite app_nil_r, <- app_assoc.
    + destruct (thread_step_inv _ _ _ Hs) as (tg & q & st & s1 & Hk' & R & ->).
      destruct tg.
      2:{ by specialize (Hno k _ Hk Hk' eq_refl). }
      destruct (run_target_frame _ _ _ _ _ R) as (Er & Et & _).
      apply writer_frame in R as [Eq Ein]. split.
      * split; [by simpl; rewrite Er|]. split; [|split].
        -- exists p. simpl. rewrite Et, list_lookup_insert_ne by done. done.
        -- intros j t Hj. simpl. rewrite Et. intros Hl.
           destruct (decide (k = j)) as [<-|Hkj].
           ++ rewrite list_lookup_insert_eq in Hl by (by eapply lookup_lt_Some).
              by injection Hl as <-.
           ++ rewrite list_lookup_insert_ne in Hl by done. by eapply Hno.
        -- simpl. by rewrite Ein.
      * unfold inbound, holding. simpl.
        rewrite Et, list_lookup_insert_ne, Eq, Ein by done. by rewrite app_nil_r.
  - injection Hs as <-. rewrite start_when_running by done. split.
    + by split; [|split; [exists p|]].
    + simpl. by rewrite app_nil_r.
  - injection Hs as <-. split.
    + split; [done|]. split; [by exists p|]. split; [done|].
      simpl. apply Forall_app. split; [done|]. by constructor.
    + unfold inbound, holding. cbn [fed]. simpl _stdin. simpl threads.
      simpl _from_user_queue.
      by rewrite omap_app, (app_assoc _ _ (omap raw_of [x])), map_app, app_assoc.
  - injection Hs as <-. split.
    + by split; [|split; [exists p|]].
    + unfold inbound, holding. simpl. by rewrite app_nil_r.
  - destruct (thread_raise_inv _ _ _ _ Hs) as (q & Hk & _ & ->).
    assert (k ≠ i) as Hki by (intros ->; rewrite Hi in Hk; discriminate).
    split.
    + split; [done|]. split; [|split; [|done]].
      * exists p. simpl. by rewrite list_lookup_insert_ne.
      * intros j t Hj. simpl. intros Hl.
        destruct (decide (k = j)) as [<-|Hkj].
        -- rewrite list_lookup_insert_eq in Hl by (by eapply lookup_lt_Some).
           by injection Hl as <-.
        -- rewrite list_lookup_insert_ne in Hl by done. by eapply Hno.
    + unfold inbound, holding. simpl.
      rewrite list_lookup_insert_ne by done. by rewrite app_nil_r.
Qed.

Lemma reader_delivering_trace i s es s' :
  trace s es s' → Forall (λ e, calm_for_reader e = true) es → reader_delivering i s →
  reader_delivering i s'
  ∧ inbound i s' = inbound i s ++ map command_of (omap raw_of (es ≫= fed)).
Proof.
  induction 1 as [|s e s1 es s2 Hs _ IH].
  - intros _ H. split; [done|]. simpl. by rewrite app_nil_r.
  - intros [He Hes]%Forall_cons H.
    destruct (reader_delivering_step _ _ _ _ Hs He H) as [H1 E1].
    destruct (IH Hes H1) as [H2 E2]. split; [done|].
    rewrite E2, E1. simpl. by rewrite omap_app, map_app, app_assoc.
Qed.

End ReaderSchedules.

Section WriterSchedules.
Local Open Scope list_scope.

Lemma owed_at i s tg st :
  threads s !! i = Some (Thread tg st) →
  owed i s = match st with
             | Alive (Holding response) => emitted response
             | Alive Flushing => [flush]
             | _ => []
             end.
Proof. intros H. unfold owed. by rewrite H. Qed.



End WriterSchedules.

Section CatchingUp.
Local Open Scope list_scope.

Lemma run_reader_waits i s fuel :
  threads s !! i = Some (reader (Alive InCall)) →
  _stdin s = [] →
  run_thread i fuel s = s.
Proof.
  intros Hi Hin. destruct fuel as [|fuel]; [reflexivity|]. cbn [run_thread].
  rewrite (thread_step_at _ _ _ _ Hi).
  cbn [run_target _read_commands_from_prompt reader]. by rewrite Hin.
Qed.

Lemma run_reader_holding i s raw fuel :
  threads s !! i = Some (reader (Alive (Holding raw))) →
  raw ≠ ""%string →
  run_thread i (S fuel) s
  = run_thread i fuel
      (set_threads (<[i := reader (Alive LoopTest)]> (threads s))
         (set_from_user_queue (_from_user_queue s ++ [command_of raw]) s)).
Proof.
  intros Hi Hraw. cbn [run_thread]. rewrite (thread_step_at _ _ _ _ Hi).
  cbn [run_target]. by rewrite reader_line.
Qed.

Lemma run_reader_in_call i s raw rest fuel :
  threads s !! i = Some (reader (Alive InCall)) →
  _stdin s = Returns raw :: rest →
  run_thread i (S fuel) s
  = run_thread i fuel
      (set_threads (<[i := reader (Alive (Holding raw))]> (threads s)) (set_stdin rest s)).
Proof.
  intros Hi Hin. cbn [run_thread]. rewrite (thread_step_at _ _ _ _ Hi).
  cbn [run_target _read_commands_from_prompt]. by rewrite Hin.
Qed.

(** Left to itself, a delivering reader brings everything that is on its
    way into the from-user queue and then waits in [readline]. *)
Lemma run_reader_from i s fuel :
  reader_delivering i s →
  3 * length (_stdin s) + 3 < fuel →
  _from_user_queue (run_thread i fuel s) = inbound i s
  ∧ _stdin (run_thread i fuel s) = [].
Proof.
  intros (Hr & (p & Hi & Hp1 & Hp2) & _ & Hin) Hf.
  destruct (lines_ready _ Hin) as [Elines Hne].
  assert (Hlen : length (omap raw_of (_stdin s)) = length (_stdin s)).
  { rewrite Elines at 2. by rewrite length_map. }
  unfold inbound. rewrite (holding_at _ _ _ _ Hi).
  destruct p as [| |raw|]; [| | |done].
  - rewrite (run_reader i (omap raw_of (_stdin s))) by (done || lia). done.
  - destruct (_stdin s) as [|x rest] eqn:E.
    { rewrite run_reader_waits by done. simpl. by rewrite app_nil_r. }
    apply Forall_cons in Hin as [Hx Hrest].
    apply is_line_inv in Hx as (raw & -> & Hraw).
    clear Elines Hne Hlen. destruct (lines_ready _ Hrest) as [Erest Hne].
    assert (Hlen : length (omap raw_of rest) = length rest).
    { rewrite Erest at 2. by rewrite length_map. }
    cbn [length] in Hf.
    destruct fuel as [|[|fuel]]; [lia..|].
    rewrite (run_reader_in_call i s raw rest) by done.
    rewrite (run_reader_holding i _ raw);
      [|by eapply lookup_insert_self|done].
    rewrite (run_reader i (omap raw_of rest)).
    + split; [|done]. simpl. by rewrite <- app_assoc.
    + simpl. rewrite list_insert_insert_eq. by eapply lookup_insert_self.
    + done.
    + done.
    + done.
    + lia.
  - assert (Hraw : raw ≠ ""%string) by congruence.
    destruct fuel as [|fuel]; [lia|].
    rewrite (run_reader_holding i s raw) by done.
    rewrite (run_reader i (omap raw_of (_stdin s))); simpl.
    + split; [|done]. by rewrite <- app_assoc.
    + by eapply lookup_insert_self.
    + done.
    + done.
    + done.
    + lia.
Qed.

Lemma run_writer_holding i s m fuel :
  threads s !! i = Some (writer (Alive (Holding m))) →
  run_thread i (S fuel) s
  = run_thread i fuel
      (set_threads (<[i := writer (Alive Flushing)]> (threads s))
         (set_stdout (_stdout s ++ [write (m ++ PyStr.nl)]) s)).
Proof.
  intros Hi. cbn [run_thread]. by rewrite (thread_step_at _ _ _ _ Hi).
Qed.

Lemma run_writer_flushing i s fuel :
  threads s !! i = Some (writer (Alive Flushing)) →
  run_thread i (S fuel) s
  = run_thread i fuel
      (set_threads (<[i := writer (Alive LoopTest)]> (threads s))
         (set_stdout (_stdout s ++ [flush]) s)).
Proof.
  intros Hi. cbn [run_thread]. by rewrite (thread_step_at _ _ _ _ Hi).
Qed.


End CatchingUp.

(** ** Order of delivery *)

Section Delivery.
Local Open Scope list_scope.

Lemma command_of_line l :
  no_trailing_newline l → command_of (l ++ PyStr.nl)%string = PyString l.
Proof. intros H. unfold command_of. by rewrite rstrip_line. Qed.

(** C5, as stated, fails: [stop] does not end a reader that waits in
    [readline], so after the next [start] two readers are alive on a
    running bridge and share the stream.  Of two lines supplied then, the
    old reader takes the first and the new reader takes and puts the
    second before the old one puts the first: the from-user queue yields
    them in the opposite order. *)
Lemma two_readers_swap_lines_counterexample :
  let restart := [ev_thread 1; ev_stop; ev_start true true] in
  let es := [ev_feed (Returns ("first" ++ PyStr.nl)%string);
             ev_feed (Returns ("second" ++ PyStr.nl)%string);
             ev_thread 1; ev_thread 3; ev_thread 3; ev_thread 3; ev_thread 1] in
  let s := after restart test_cli in
  trace test_cli restart s
  ∧ running s = true
  ∧ threads s !! 1 = Some (reader (Alive InCall))
  ∧ threads s !! 3 = Some (reader (Alive LoopTest))
  ∧ _from_user_queue s = []
  ∧ trace s es (after es s)
  ∧ Forall (λ e, calm_for_reader e = true) es
  ∧ running (after es s) = true
  ∧ _stdin (after es s) = []
  ∧ _from_user_queue (after es s) = [PyString "second"; PyString "first"]
  ∧ _from_user_queue (after es s) ≠ map command_of (omap raw_of (es ≫= fed)).
Proof.
  cbv zeta.
  split; [apply exec_trace; by vm_compute|].
  do 4 (split; [by vm_compute|]).
  split; [apply exec_trace; by vm_compute|].
  split; [repeat constructor|].
  do 3 (split; [by vm_compute|]).
  by vm_compute.
Qed.

(** C5, amended: on a running bridge whose one live reader is thread [i], let the
    terminal supply lines while the threads and the owner act in any order
    (no [stop], and the owner not yet taking from the from-user queue).
    Once the reader has caught up, the from-user queue, whose left end is
    what [get] returns first, holds what was already on its way followed by
    exactly the lines supplied, in the order supplied, each stripped by
    [rstrip]; before that it holds a prefix of this.  A line that is a text
    followed by its newline arrives as the text. *)
Theorem reader_yields_lines_in_order i s es s' fuel :
  reader_delivering i s →
  trace s es s' →
  Forall (λ e, calm_for_reader e = true) es →
  3 * length (_stdin s') + 3 < fuel →
  _from_user_queue (run_thread i fuel s')
  = inbound i s ++ map command_of (omap raw_of (es ≫= fed))
  ∧ _stdin (run_thread i fuel s') = []
  ∧ _from_user_queue s' `prefix_of` _from_user_queue (run_thread i fuel s')
  ∧ ∀ l, no_trailing_newline l → command_of (l ++ PyStr.nl)%string = PyString l.
Proof.
  intros Hd Ht Hes Hf.
  destruct (reader_delivering_trace _ _ _ _ Ht Hes Hd) as [Hd' E].
  destruct (run_reader_from _ _ _ Hd' Hf) as [Eq Ein].
  split; [by rewrite Eq, E|]. split; [exact Ein|]. split.
  - rewrite Eq. unfold inbound. by apply prefix_app_r.
  - apply command_of_line.
Qed.

(** Scenario A of the tests, with a second line, amid the writer's own
    actions. *)
Lemma reader_yields_lines_in_order_witness :
  let es := [ev_thread 1; ev_feed (Returns ("This is some test input" ++ PyStr.nl)%string);
             ev_thread 0; ev_thread 1; ev_feed (Returns ("more" ++ PyStr.nl)%string);
             ev_start true true] in
  _from_user_queue (run_thread 1 10 (after es test_cli))
  = inbound 1 test_cli ++ map command_of (omap raw_of (es ≫= fed))
  ∧ _stdin (run_thread 1 10 (after es test_cli)) = []
  ∧ _from_user_queue (after es test_cli)
    `prefix_of` _from_user_queue (run_thread 1 10 (after es test_cli))
  ∧ ∀ l, no_trailing_newline l → command_of (l ++ PyStr.nl)%string = PyString l.
Proof.
  apply (reader_yields_lines_in_order 1 test_cli
           [ev_thread 1; ev_feed (Returns ("This is some test input" ++ PyStr.nl)%string);
            ev_thread 0; ev_thread 1; ev_feed (Returns ("more" ++ PyStr.nl)%string);
            ev_start true true]).
  - split; [by vm_compute|]. split; [|split].
    + exists LoopTest. split; [by vm_compute|]. split; discriminate.
    + intros [|[|j]] t Hne Hj; try done.
      vm_compute in Hj. injection Hj as <-. discriminate.
    + constructor.
  - apply exec_trace. by vm_compute.
  - repeat constructor.
  - vm_compute. lia.
Defined.

Example scenario_A_then_more :
  _from_user_queue
    (run_thread 1 10
       (after [ev_thread 1; ev_feed (Returns ("This is some test input" ++ PyStr.nl)%string);
               ev_thread 0; ev_thread 1; ev_feed (Returns ("more" ++ PyStr.nl)%string);
               ev_start true true] test_cli))
  = [PyString "This is some test input"; PyString "more"].
Proof. by vm_compute. Qed.




Example scenario_B_then_more :
  _stdout
    (run_thread 0 9
       (after [ev_thread 0; ev_thread 1; ev_put "This is some test output"%string;
               ev_thread 0; ev_put "and more"%string] test_cli))
  = [write ("This is some test output" ++ PyStr.nl)%string; flush;
     write ("and more" ++ PyStr.nl)%string; flush].
Proof. by vm_compute. Qed.

End Delivery.

(** * Further properties *)

(** ** The flag *)

Section Flag.
Local Open Scope list_scope.

Lemma step_flag s e s' :
  step s e s' → _running s' = flag_after [e] (_running s).
Proof.
  unfold step. destruct e as [i|a b| |x|m| |i ex]; simpl; intros H.
  - exact (thread_step_running _ _ _ H).
  - injection H as <-. apply start_sets_running.
  - injection H as <-. apply stop_clears_running.
  - by injection H as <-.
  - by injection H as <-.
  - destruct (_from_user_queue s); [discriminate|]. by injection H as <-.
  - by destruct (thread_raise_inv _ _ _ _ H) as (p & _ & _ & ->).
Qed.

(** Whatever the threads, the terminal and the owner do, [running] is
    true exactly when the owner's last call of [start] or [stop] was
    [start]: no loop, no end of input and no failure ever changes it. *)
Theorem running_follows_last_call s es s' :
  trace s es s' → running s' = flag_after es (running s).
Proof.
  unfold running. induction 1 as [|s e s1 es s2 Hs _ IH]; [reflexivity|].
  rewrite IH, (step_flag _ _ _ Hs). reflexivity.
Qed.

Lemma running_follows_last_call_witness :
  running (after [ev_start true true; ev_feed (Returns ""); ev_thread 1; ev_thread 1;
                  ev_thread 1; ev_put "x"%string] fresh)
  = flag_after [ev_start true true; ev_feed (Returns ""); ev_thread 1; ev_thread 1;
                ev_thread 1; ev_put "x"%string] (running fresh).
Proof.
  apply (running_follows_last_call fresh
           [ev_start true true; ev_feed (Returns ""); ev_thread 1; ev_thread 1;
            ev_thread 1; ev_put "x"%string]).
  apply exec_trace. by vm_compute.
Defined.

(** Before the first [start] the bridge does nothing: it has no thread,
    [stop] changes nothing, and whatever is typed or put stays where it
    is; stdout receives nothing and nothing is logged. *)
Theorem nothing_happens_before_start to_user_q from_user_q stdin stdout es s' :
  trace (__init__ to_user_q from_user_q stdin stdout) es s' →
  Forall (λ e, is_start e = false) es →
  threads s' = [] ∧ running s' = false ∧ _stdout s' = stdout
  ∧ _stdin s' = stdin ++ es ≫= fed
  ∧ _to_user_queue s' = to_user_q ++ es ≫= put_by
  ∧ _from_user_queue s' `suffix_of` from_user_q
  ∧ exc_log s' = [].
Proof.
  set (s0 := __init__ to_user_q from_user_q stdin stdout).
  intros Ht Hes.
  change stdout with (_stdout s0). change stdin with (_stdin s0).
  change to_user_q with (_to_user_queue s0). change from_user_q with (_from_user_queue s0).
  assert (H0 : threads s0 = [] ∧ running s0 = false ∧ exc_log s0 = []) by done.
  clearbody s0. induction Ht as [|s e s1 es s2 Hs _ IH].
  - simpl. rewrite !app_nil_r. by destruct H0 as (? & ? & ?).
  - apply Forall_cons in Hes as [He Hes]. destruct H0 as (Hth & Hr & Hlog).
    unfold step in Hs. destruct e as [i|a b| |x|m| |i ex]; simpl in Hs, He; try discriminate.
    6:{ unfold thread_raise in Hs. rewrite Hth in Hs. discriminate. }
    + unfold thread_step in Hs. rewrite Hth in Hs. discriminate.
    + injection Hs as <-. unfold running in Hr. rewrite stop_when_stopped in * by done.
      by apply IH.
    + injection Hs as <-.
      destruct (IH Hes) as (? & ? & ? & E & E' & ? & ?); [done|].
      simpl in E, E'. repeat split; simpl; try done.
      rewrite E. by rewrite <- app_assoc.
    + injection Hs as <-.
      destruct (IH Hes) as (? & ? & ? & E & E' & ? & ?); [done|].
      simpl in E, E'. repeat split; simpl; try done.
      rewrite E'. unfold Queue.put. by rewrite <- app_assoc.
    + destruct (_from_user_queue s) as [|v q] eqn:E; [discriminate|]. injection Hs as <-.
      destruct (IH Hes) as (? & ? & ? & ? & ? & Hsuf & ?); [done|].
      repeat split; simpl; try done. simpl in Hsuf. by apply suffix_cons_r.
Qed.

End Flag.

(** ** Launching and winding down *)

Section Launch.
Local Open Scope list_scope.

(** When the operating system refuses one of the two threads, [start]
    raises [RuntimeError] with the flag already set: the bridge reports
    [running] although its reader was never started, and every further
    [start] is a no-op, so only a [stop] in between lets the owner try
    again. *)
Theorem failed_start_leaves_flag_set a b s :
  _running s = false →
  a && b = false →
  (start a b s).1 = Raise RuntimeError
  ∧ running (start a b s).2 = true
  ∧ threads (start a b s).2 !! S (length (threads s)) = Some (reader Unstarted)
  ∧ (∀ a' b', start a' b' (start a b s).2 = (Return tt, (start a b s).2)).
Proof.
  intros Hr Hab. rewrite start_when_stopped by done. rewrite Hab. simpl.
  split; [done|]. split; [done|]. split.
  - apply lookup_after_length.
  - intros a' b'. by apply start_when_running.
Qed.

Lemma failed_start_leaves_flag_set_witness :
  (start true false fresh).1 = Raise RuntimeError
  ∧ running (start true false fresh).2 = true
  ∧ threads (start true false fresh).2 !! S (length (threads fresh))
    = Some (reader Unstarted)
  ∧ (∀ a' b', start a' b' (start true false fresh).2
              = (Return tt, (start true false fresh).2)).
Proof.
  apply (failed_start_leaves_flag_set true false fresh); reflexivity.
Defined.

(** [stop] followed by [start], from any state: two new thread objects
    at the end of the pool, to which the attributes now point; the threads
    of before are neither reused nor changed, and both queues and both
    streams are as they were. *)
Theorem restart_adds_a_new_pair a b s :
  threads (start a b (stop s).2).2
  = threads s ++ [writer (if a then Alive LoopTest else Unstarted);
                  reader (if a && b then Alive LoopTest else Unstarted)]
  ∧ _to_user_thread (start a b (stop s).2).2 = Some (length (threads s))
  ∧ _from_user_thread (start a b (stop s).2).2 = Some (S (length (threads s)))
  ∧ running (start a b (stop s).2).2 = true
  ∧ _to_user_queue (start a b (stop s).2).2 = _to_user_queue s
  ∧ _from_user_queue (start a b (stop s).2).2 = _from_user_queue s
  ∧ _stdin (start a b (stop s).2).2 = _stdin s
  ∧ _stdout (start a b (stop s).2).2 = _stdout s.
Proof.
  rewrite start_when_stopped by apply stop_clears_running.
  destruct (stop_frame s) as [log ->]. by simpl.
Qed.

End Launch.

Section Stopped.
Local Open Scope list_scope.

Lemma run_thread_S i k s :
  run_thread i (S k) s
  = match thread_step i s with
    | Some s' => run_thread i k s'
    | None => s
    end.
Proof. reflexivity. Qed.

(** With the flag cleared, a thread at the top of its loop leaves it. *)
Lemma run_thread_exits i s tg k :
  _running s = false →
  threads s !! i = Some (Thread tg (Alive LoopTest)) →
  run_thread i (S k) s = set_threads (<[i := Thread tg Exited]> (threads s)) s.
Proof.
  intros Hr Hi. cbn [run_thread]. rewrite (thread_step_at _ _ _ _ Hi).
  assert (run_target tg LoopTest s = Some (Exited, s)) as ->.
  { destruct tg; simpl; by rewrite Hr. }
  destruct k as [|k]; [reflexivity|]. cbn [run_thread].
  rewrite (thread_step_dead i _ (Thread tg Exited));
    [reflexivity | simpl; by eapply lookup_insert_self | reflexivity].
Qed.

(** After [stop], a writer that is not waiting in [get] finishes the
    message it has in hand and leaves its loop. *)
Theorem stopped_writer_winds_down i s p fuel :
  _running s = false →
  threads s !! i = Some (writer (Alive p)) →
  p ≠ InCall →
  2 < fuel →
  _stdout (run_thread i fuel s) = _stdout s ++ owed i s
  ∧ _to_user_queue (run_thread i fuel s) = _to_user_queue s
  ∧ threads (run_thread i fuel s) !! i = Some (writer Exited).
Proof.
  intros Hr Hi Hp Hf. rewrite (owed_at _ _ _ _ Hi).
  pose proof (run_thread_exits i) as Hexit.
  destruct p as [| |m|]; [|done| |].
  - destruct fuel as [|fuel]; [lia|]. rewrite (Hexit s _output_commands_to_prompt_target) by done. simpl.
    split; [by rewrite app_nil_r|]. split; [done|]. by eapply lookup_insert_self.
  - destruct fuel as [|[|[|fuel]]]; [lia..|].
    rewrite (run_writer_holding i s m) by done.
    rewrite run_writer_flushing by (by eapply lookup_insert_self).
    rewrite (Hexit _ _output_commands_to_prompt_target); simpl.
    + split; [by rewrite <- app_assoc|]. split; [done|].
      rewrite !list_insert_insert_eq. by eapply lookup_insert_self.
    + done.
    + rewrite list_insert_insert_eq. by eapply lookup_insert_self.
  - destruct fuel as [|[|fuel]]; [lia..|].
    rewrite run_writer_flushing by done.
    rewrite (Hexit _ _output_commands_to_prompt_target); simpl.
    + split; [done|]. split; [done|].
      rewrite !list_insert_insert_eq. by eapply lookup_insert_self.
    + done.
    + by eapply lookup_insert_self.
Qed.

(** After [stop], a writer waiting in [get] is woken by the next message
    put: it writes and flushes that one message and only then leaves. *)
Theorem stopped_writer_writes_next_message i s m q fuel :
  _running s = false →
  threads s !! i = Some (writer (Alive InCall)) →
  _to_user_queue s = m :: q →
  3 < fuel →
  _stdout (run_thread i fuel s) = _stdout s ++ [write (m ++ PyStr.nl)%string; flush]
  ∧ _to_user_queue (run_thread i fuel s) = q
  ∧ threads (run_thread i fuel s) !! i = Some (writer Exited).
Proof.
  intros Hr Hi Hq Hf. destruct fuel as [|[|[|[|fuel]]]]; [lia..|].
  rewrite run_thread_S, (thread_step_at _ _ _ _ Hi).
  cbn [run_target _output_commands_to_prompt]. rewrite writer_get, Hq.
  rewrite (run_writer_holding i _ m) by (by eapply lookup_insert_self).
  rewrite run_writer_flushing
    by (simpl; rewrite !list_insert_insert_eq; by eapply lookup_insert_self).
  rewrite (run_thread_exits i _ _output_commands_to_prompt_target); simpl.
  - split; [by rewrite <- app_assoc|]. split; [done|].
    rewrite !list_insert_insert_eq. by eapply lookup_insert_self.
  - done.
  - rewrite !list_insert_insert_eq. by eapply lookup_insert_self.
Qed.

Lemma value_of_line raw : raw ≠ ""%string → value_of raw = command_of raw.
Proof. intros H. unfold value_of. by destruct (decide (raw = ""%string)). Qed.

(** After [stop], a reader that is not waiting in [readline] puts what it
    has in hand and leaves its loop without reading again. *)
Theorem stopped_reader_winds_down i s p fuel :
  _running s = false →
  threads s !! i = Some (reader (Alive p)) →
  p = LoopTest ∨ (∃ raw, p = Holding raw) →
  1 < fuel →
  _from_user_queue (run_thread i fuel s) = _from_user_queue s ++ map value_of (holding i s)
  ∧ _stdin (run_thread i fuel s) = _stdin s
  ∧ threads (run_thread i fuel s) !! i = Some (reader Exited).
Proof.
  intros Hr Hi Hp Hf. rewrite (holding_at _ _ _ _ Hi).
  destruct Hp as [-> | [raw ->]].
  - destruct fuel as [|fuel]; [lia|].
    rewrite (run_thread_exits i s _read_commands_from_prompt_target) by done. simpl.
    split; [by rewrite app_nil_r|]. split; [done|]. by eapply lookup_insert_self.
  - destruct fuel as [|[|fuel]]; [lia..|].
    rewrite run_thread_S, (thread_step_at _ _ _ _ Hi).
    cbn [run_target _read_commands_from_prompt].
    cbn [map].
    destruct (decide (raw = ""%string)) as [->|Hraw]; rewrite ?value_of_line by done.
    + rewrite run_thread_S, (thread_step_dead i _ (reader Exited));
        [| simpl; by eapply lookup_insert_self | reflexivity].
      simpl. split; [done|]. split; [done|]. by eapply lookup_insert_self.
    + rewrite (run_thread_exits i _ _read_commands_from_prompt_target); simpl.
      * split; [done|]. split; [done|].
        rewrite list_insert_insert_eq. by eapply lookup_insert_self.
      * done.
      * by eapply lookup_insert_self.
Qed.

(** After [stop], a reader waiting in [readline] stays until the stream
    has something: it then takes exactly that one read, puts the line (or
    the end-of-input mark) and leaves; on an error it dies without putting
    anything. *)
Theorem stopped_reader_ends_on_next_input i s x rest fuel :
  _running s = false →
  threads s !! i = Some (reader (Alive InCall)) →
  _stdin s = x :: rest →
  2 < fuel →
  _stdin (run_thread i fuel s) = rest
  ∧ _from_user_queue (run_thread i fuel s)
    = _from_user_queue s ++ match x with
                            | Returns raw => [value_of raw]
                            | Fails _ => []
                            end
  ∧ threads (run_thread i fuel s) !! i
    = Some (reader match x with
                   | Returns _ => Exited
                   | Fails e => Died e
                   end).
Proof.
  intros Hr Hi Hin Hf. destruct fuel as [|[|[|fuel]]]; [lia..|].
  rewrite run_thread_S, (thread_step_at _ _ _ _ Hi).
  cbn [run_target _read_commands_from_prompt]. rewrite Hin.
  destruct x as [raw|e].
  - rewrite run_thread_S.
    rewrite (thread_step_at i _ _read_commands_from_prompt_target (Holding raw))
      by (by eapply lookup_insert_self).
    cbn [run_target _read_commands_from_prompt].
    cbn [map].
    destruct (decide (raw = ""%string)) as [->|Hraw]; rewrite ?value_of_line by done.
    + rewrite run_thread_S, (thread_step_dead i _ (reader Exited));
        [| simpl; rewrite list_insert_insert_eq; by eapply lookup_insert_self
         | reflexivity].
      simpl. split; [done|]. split; [done|].
      rewrite list_insert_insert_eq. by eapply lookup_insert_self.
    + rewrite (run_thread_exits i _ _read_commands_from_prompt_target); simpl.
      * split; [done|]. split; [done|].
        rewrite !list_insert_insert_eq. by eapply lookup_insert_self.
      * done.
      * rewrite list_insert_insert_eq. by eapply lookup_insert_self.
  - rewrite run_thread_S, (thread_step_dead i _ (reader (Died e)));
      [| simpl; by eapply lookup_insert_self | reflexivity].
    simpl. split; [done|]. split; [by rewrite app_nil_r|].
    by eapply lookup_insert_self.
Qed.

End Stopped.

(** ** Conservation of messages *)

Section Conservation.
Local Open Scope list_scope.

(** Changing one thread of the pool changes what is in hand by that
    thread's share. *)
Lemma hands_insert {A} (f : thread → list A) ths i t t' :
  ths !! i = Some t →
  (<[i := t']> ths ≫= f) ++ f t ≡ₚ (ths ≫= f) ++ f t'.
Proof.
  revert i. induction ths as [|u ths IH]; intros [|i] H; simplify_eq/=.
  - rewrite <- !app_assoc. rewrite (Permutation_app_comm (ths ≫= f) (f t)).
    rewrite (Permutation_app_comm (ths ≫= f) (f t')).
    rewrite !app_assoc. by rewrite (Permutation_app_comm (f t') (f t)).
  - rewrite <- !app_assoc. by rewrite (IH _ H).
Qed.

Lemma hands_insert_same {A} (f : thread → list A) ths i t t' :
  ths !! i = Some t → f t = f t' →
  <[i := t']> ths ≫= f ≡ₚ ths ≫= f.
Proof.
  intros H E. apply (Permutation_app_inv_r (f t)).
  rewrite (hands_insert f ths i t t' H). by rewrite E.
Qed.

Lemma written_app out out' : written (out ++ out') = written out ++ written out'.
Proof. unfold written. apply bind_app. Qed.

Lemma reader_has_no_response st :
  response_in_hand (Thread _read_commands_from_prompt_target st) = [].
Proof. by destruct st as [|[]| |]. Qed.

Lemma writer_has_no_raw st :
  raw_in_hand (Thread _output_commands_to_prompt_target st) = [].
Proof. by destruct st as [|[]| |]. Qed.

(** One event keeps the outbound messages and adds the one the owner
    put, if any; only a [write] that raises loses one, the response its
    writer had in hand. *)
Lemma outbound_all_step s e s' :
  step s e s' →
  ∃ lost : list string, (length lost ≤ raises [e])%nat
          ∧ outbound_all s' ++ map PyStr.format_line lost
            ≡ₚ outbound_all s ++ map PyStr.format_line (put_by e).
Proof.
  unfold step. destruct e as [i|a b| |x|m| |i ex]; simpl; intros H;
    [exists []; (split; [done|]); rewrite ?app_nil_r ..|].
  - destruct (thread_step_inv _ _ _ H) as (tg & p & st & s1 & Hi & R & ->).
    destruct (run_target_frame _ _ _ _ _ R) as (_ & Et & _).
    unfold outbound_all. simpl. rewrite Et. destruct tg.
    + destruct p as [| |response|]; simpl in R.
      * injection R as <- <-.
        rewrite (hands_insert_same response_in_hand _ _ _ _ Hi); [done|].
        by destruct (_running s).
      * rewrite writer_get in R.
        destruct (_to_user_queue s) as [|response q] eqn:E; [discriminate|].
        injection R as <- <-. simpl.
        pose proof (hands_insert response_in_hand _ _ _
                      (writer (Alive (Holding response))) Hi) as P.
        simpl in P. rewrite app_nil_r in P. rewrite P.
        rewrite !map_app. simpl. solve_Permutation.
      * injection R as <- <-. simpl. rewrite written_app. simpl.
        pose proof (hands_insert response_in_hand _ _ _
                      (writer (Alive Flushing)) Hi) as P.
        simpl in P. rewrite app_nil_r in P. rewrite <- P.
        rewrite !map_app. simpl. solve_Permutation.
      * injection R as <- <-. simpl. rewrite written_app. simpl. rewrite app_nil_r.
        by rewrite (hands_insert_same response_in_hand _ _ _ _ Hi).
    + apply reader_frame in R as [-> ->].
      rewrite (hands_insert_same response_in_hand _ _ _ _ Hi); [done|].
      by rewrite !reader_has_no_response.
  - injection H as <-. destruct (_running s) eqn:Hr.
    + by rewrite start_when_running.
    + rewrite start_when_stopped by done. unfold outbound_all. simpl.
      rewrite bind_app. by destruct a, b; simpl; rewrite !app_nil_r.
  - injection H as <-. by destruct (stop_frame s) as [log ->].
  - by injection H as <-.
  - injection H as <-. unfold outbound_all, Queue.put. simpl.
    by rewrite !map_app, !app_assoc.
  - destruct (_from_user_queue s); [discriminate|]. by injection H as <-.
  - destruct (thread_raise_inv _ _ _ _ H) as (p & Hi & [->|[response ->]] & ->).
    + exists []. split; [simpl; lia|]. rewrite !app_nil_r.
      unfold outbound_all. simpl.
      by rewrite (hands_insert_same response_in_hand _ _ _ _ Hi).
    + exists [response]. split; [done|]. rewrite app_nil_r.
      unfold outbound_all. simpl.
      pose proof (hands_insert response_in_hand _ _ _ (writer (Died ex)) Hi) as P.
      simpl in P. rewrite app_nil_r in P. rewrite <- P.
      rewrite !map_app. simpl. solve_Permutation.
Qed.

(** One event, whatever it is, keeps the inbound values, adds what the
    terminal supplied and removes what the owner took. *)
Lemma inbound_all_step s e s' :
  step s e s' →
  ∃ taken, length taken = gets [e]
           ∧ inbound_all s' ++ taken
             ≡ₚ inbound_all s ++ omap value_of_read (fed e).
Proof.
  unfold step. destruct e as [i|a b| |x|m| |i ex]; simpl; intros H.
  - exists []. split; [done|]. rewrite !app_nil_r.
    destruct (thread_step_inv _ _ _ H) as (tg & p & st & s1 & Hi & R & ->).
    destruct (run_target_frame _ _ _ _ _ R) as (_ & Et & _).
    unfold inbound_all. simpl. rewrite Et. destruct tg.
    + apply writer_frame in R as [-> ->].
      rewrite (hands_insert_same raw_in_hand _ _ _ _ Hi); [done|].
      by rewrite !writer_has_no_raw.
    + destruct p as [| |raw|]; simpl in R; [| | |discriminate].
      * injection R as <- <-.
        rewrite (hands_insert_same raw_in_hand _ _ _ _ Hi); [done|].
        by destruct (_running s).
      * destruct (_stdin s) as [|[raw|e] rest] eqn:E; [discriminate| |];
          injection R as <- <-; simpl.
        -- pose proof (hands_insert raw_in_hand _ _ _
                         (reader (Alive (Holding raw))) Hi) as P.
           simpl in P. rewrite app_nil_r in P. rewrite P.
           rewrite !map_app. simpl. solve_Permutation.
        -- by rewrite (hands_insert_same raw_in_hand _ _ _ _ Hi).
      * destruct (decide (raw = ""%string)) as [->|Hraw]; injection R as <- <-; simpl.
        -- pose proof (hands_insert raw_in_hand _ _ _ (reader Exited) Hi) as P.
           simpl in P. rewrite app_nil_r in P. rewrite <- P.
           unfold Queue.put. rewrite !map_app. simpl. solve_Permutation.
        -- pose proof (hands_insert raw_in_hand _ _ _ (reader (Alive LoopTest)) Hi) as P.
           simpl in P. rewrite app_nil_r in P. rewrite <- P.
           unfold Queue.put. rewrite !map_app. simpl.
           rewrite (value_of_line raw) by done. solve_Permutation.
  - exists []. split; [done|]. rewrite !app_nil_r.
    injection H as <-. destruct (_running s) eqn:Hr.
    + by rewrite start_when_running.
    + rewrite start_when_stopped by done. unfold inbound_all. simpl.
      rewrite bind_app. by destruct a, b; simpl; rewrite !app_nil_r.
  - exists []. split; [done|]. rewrite !app_nil_r.
    injection H as <-. by destruct (stop_frame s) as [log ->].
  - exists []. split; [done|]. rewrite !app_nil_r.
    injection H as <-. unfold inbound_all. simpl.
    by rewrite omap_app, !app_assoc.
  - exists []. split; [done|]. rewrite !app_nil_r. by injection H as <-.
  - destruct (_from_user_queue s) as [|v q] eqn:E; [discriminate|].
    injection H as <-. exists [v]. split; [done|].
    unfold inbound_all. simpl. rewrite E, app_nil_r. simpl.
    rewrite <- Permutation_cons_append. done.
  - exists []. split; [done|]. rewrite !app_nil_r.
    destruct (thread_raise_inv _ _ _ _ H) as (p & Hi & _ & ->).
    unfold inbound_all. simpl.
    rewrite (hands_insert_same raw_in_hand _ _ _ _ Hi); [done|].
    by rewrite !writer_has_no_raw.
Qed.

Lemma raises_cons e es : raises (e :: es) = raises [e] + raises es.
Proof. unfold raises. rewrite !bind_cons. simpl. by rewrite app_nil_r, length_app. Qed.

Lemma gets_cons e es : gets (e :: es) = gets [e] + gets es.
Proof. unfold gets. rewrite !bind_cons. simpl. by rewrite app_nil_r, length_app. Qed.

(** Under every schedule, with any number of stops, restarts, live
    writers and calls on stdout that raise: the strings stdout took in a
    [write], together with the messages in the writers' hands and in the
    to-user queue (each with its newline) and the messages lost, are, up to
    order, those of the beginning plus what the owner put.  A message is
    lost only when a call on stdout raises, at most one for each such call:
    the response the writer had in hand goes with the writer.  On a stream
    that takes every call nothing is lost; in no case is a message written
    twice or made up. *)
Theorem outbound_messages_conserved s es s' :
  trace s es s' →
  ∃ lost : list string, (length lost ≤ raises es)%nat
          ∧ (raises es = 0 → lost = [])
          ∧ outbound_all s' ++ map PyStr.format_line lost
            ≡ₚ outbound_all s ++ map PyStr.format_line (es ≫= put_by).
Proof.
  induction 1 as [|s e s1 es s2 Hs _ IH].
  - exists []. split; [done|]. split; [done|]. simpl. by rewrite !app_nil_r.
  - destruct IH as (lost & Hlen & _ & IH).
    destruct (outbound_all_step _ _ _ Hs) as (lost1 & Hlen1 & P).
    assert (length (lost ++ lost1) ≤ raises (e :: es))%nat as Hle
      by (rewrite length_app, (raises_cons e es); lia).
    exists (lost ++ lost1). split; [exact Hle|]. split.
    + intros E. rewrite E in Hle. destruct (lost ++ lost1); [done | simpl in Hle; lia].
    + simpl. rewrite !map_app, !app_assoc, IH.
      rewrite <- !app_assoc, (Permutation_app_comm _ (map _ lost1)), !app_assoc.
      by rewrite P.
Qed.

(** Under every schedule, with any number of stops, restarts and live
    readers: the values in the from-user queue, those the readers have in
    hand and those the stream has still to give, together with the values
    the owner took (one for each [get]), are, up to order, those of the
    beginning plus what the terminal supplied; a read that raises supplies
    nothing. *)
Theorem inbound_values_conserved s es s' :
  trace s es s' →
  ∃ taken, length taken = gets es
           ∧ inbound_all s' ++ taken
             ≡ₚ inbound_all s ++ omap value_of_read (es ≫= fed).
Proof.
  induction 1 as [|s e s1 es s2 Hs _ IH].
  - exists []. split; [done|]. simpl. by rewrite !app_nil_r.
  - destruct IH as (taken & Hlen & IH).
    destruct (inbound_all_step _ _ _ Hs) as (taken1 & Hlen1 & P).
    exists (taken ++ taken1). split.
    + rewrite length_app, Hlen, Hlen1, (gets_cons e es). lia.
    + simpl. rewrite omap_app, !app_assoc, IH.
      rewrite <- !app_assoc, (Permutation_app_comm _ taken1), !app_assoc.
      by rewrite P.
Qed.

End Conservation.

(** ** Two readers after a restart *)

Section Race.
Local Open Scope list_scope.

(** A reader waiting in [readline] survives [stop]; after the next
    [start] two readers are alive and share the stream, and two lines can
    reach the from-user queue in the opposite order of their arrival. *)
Theorem restart_can_swap_lines l1 l2 :
  l1 ≠ ""%string → l2 ≠ ""%string →
  trace test_cli (restart_race l1 l2) (after (restart_race l1 l2) test_cli)
  ∧ _from_user_queue (after (restart_race l1 l2) test_cli) = [command_of l2; command_of l1]
  ∧ threads (after (restart_race l1 l2) test_cli) !! 1 = Some (reader (Alive LoopTest))
  ∧ threads (after (restart_race l1 l2) test_cli) !! 3 = Some (reader (Alive LoopTest))
  ∧ running (after (restart_race l1 l2) test_cli) = true.
Proof.
  intros H1 H2.
  destruct l1 as [|a1 l1]; [done|]. destruct l2 as [|a2 l2]; [done|].
  assert (E : exec (restart_race (String a1 l1) (String a2 l2)) test_cli
              = Some (after (restart_race (String a1 l1) (String a2 l2)) test_cli)).
  { by vm_compute. }
  split; [by apply exec_trace|].
  repeat split; by vm_compute.
Qed.

End Race.

(** ** The bridge on the mock stream *)

Section Mock.
Local Open Scope list_scope.

(** The mock returns what was sent, in the order sent, and then waits. *)
Theorem mock_readlines n self :
  MockStdInOut.readlines n self
  = if decide (n ≤ length (MockStdInOut.to_send_data self))%nat
    then Some (take n (MockStdInOut.to_send_data self),
               {| MockStdInOut.received_data := MockStdInOut.received_data self;
                  MockStdInOut.to_send_data := drop n (MockStdInOut.to_send_data self) |})
    else None.
Proof.
  revert self. induction n as [|n IH]; intros [rd sd]; simpl.
  - rewrite drop_0. reflexivity.
  - destruct sd as [|x sd]; simpl.
    + reflexivity.
    + rewrite IH. simpl. repeat case_decide; try lia; done.
Qed.

Lemma written_snoc_write out data : written (out ++ [write data]) = written out ++ [data].
Proof. by rewrite written_app. Qed.

Lemma written_snoc_flush out : written (out ++ [flush]) = written out.
Proof. rewrite written_app. simpl. by rewrite app_nil_r. Qed.

(** Every event of the system is, for the mock behind the streams,
    exactly the call its kind determines.  An action of a reader inside its
    call is one [readline], and the string returned is the one the reader
    then holds; an action of a writer with a response in hand is one
    [write] of the response with its newline; an action of a writer that
    has written is one [flush], which leaves the mock as it is; the test's
    feeding of a string is one [append].  Every other event, the other
    actions of the threads, [start], [stop], [put] and [get], leaves the
    mock as it is. *)
Theorem step_on_mock s e s' :
  step s e s' →
  mock_event e = true →
  Forall (λ x, is_Some (raw_of x)) (_stdin s) →
  mock_after (mock_call_of e s) (mock_of s) = Some (mock_of s')
  ∧ (∀ i, e = ev_thread i → threads s !! i = Some (reader (Alive InCall)) →
     ∃ x, MockStdInOut.readline (mock_of s) = Some (x, mock_of s')
          ∧ threads s' !! i = Some (reader (Alive (Holding x)))).
Proof.
  unfold step. destruct e as [i|a b| |x|m| |i ex]; simpl; intros H He Hin;
    try discriminate.
  - destruct (thread_step_inv _ _ _ H) as (tg & p & st & s1 & Hi & R & ->).
    rewrite Hi. unfold mock_of. simpl. destruct tg.
    + split; [|intros ? [= <-] Hx; rewrite Hi in Hx; discriminate Hx].
      destruct p as [| |response|]; simpl in R.
      * by injection R as <- <-.
      * rewrite writer_get in R. destruct (_to_user_queue s); [discriminate|].
        by injection R as <- <-.
      * injection R as <- <-. simpl. by rewrite written_snoc_write.
      * injection R as <- <-. simpl. by rewrite written_snoc_flush.
    + destruct p as [| |raw|]; simpl in R; [| | |discriminate].
      * injection R as <- <-. split; [done | intros ? [= <-] Hx; rewrite Hi in Hx; discriminate Hx].
      * destruct (_stdin s) as [|[raw|e] rest] eqn:E; [discriminate| |].
        -- injection R as <- <-. split; [done|].
           intros ? [= <-] _. exists raw. split; [done|]. simpl.
           by eapply lookup_insert_self.
        -- apply Forall_cons in Hin as [[? [=]] _].
      * split; [|intros ? [= <-] Hx; rewrite Hi in Hx; discriminate Hx].
        destruct (decide (raw = ""%string)); by injection R as <- <-.
  - injection H as <-. split; [|done].
    destruct (start_frame a b s) as (? & ? & ? & ->). done.
  - injection H as <-. split; [|done]. by destruct (stop_frame s) as [log ->].
  - injection H as <-. destruct x as [x|]; [|discriminate]. split; [|done].
    unfold mock_of, MockStdInOut.send. simpl. by rewrite omap_app.
  - injection H as <-. by split.
  - destruct (_from_user_queue s); [discriminate|]. injection H as <-. by split.
Qed.

(** The session of [test_input_and_output], for every input text that
    does not end in a newline and every output message: the line typed
    arrives as the text, the message is received by the mock with one
    newline added, the bridge is still running, and nothing is left in the
    mock's input or in the queues. *)
Theorem input_and_output_session test_input test_output fuel fuel' :
  no_trailing_newline test_input →
  3 < fuel → 4 < fuel' →
  let s1 := run_thread 1 fuel
              (after [ev_feed (Returns (test_input ++ PyStr.nl)%string)] test_cli) in
  let s2 := run_thread 0 fuel' (after [ev_get; ev_put test_output] s1) in
  _from_user_queue s1 = [PyString test_input]
  ∧ MockStdInOut.received_data (mock_of s2) = [(test_output ++ PyStr.nl)%string]
  ∧ MockStdInOut.to_send_data (mock_of s2) = []
  ∧ running s2 = true
  ∧ _from_user_queue s2 = []
  ∧ _to_user_queue s2 = [].
Proof.
  intros Hno Hf Hf'. cbv zeta.
  set (line := (test_input ++ PyStr.nl)%string).
  assert (Hline : line ≠ ""%string) by apply app_nl_not_empty.
  assert (E1 : run_thread 1 fuel (after [ev_feed (Returns line)] test_cli)
               = set_threads (<[1 := reader (Alive InCall)]> (threads test_cli))
                   (set_from_user_queue [PyString test_input] test_cli)).
  { rewrite (run_reader 1 [line]); [| done | done | done | by constructor | simpl; lia].
    apply CLIInput_eq; try done. simpl. unfold line. by rewrite rstrip_line. }
  rewrite E1. split; [done|].
  assert (E2 : run_thread 0 fuel'
                 (after [ev_get; ev_put test_output]
                    (set_threads (<[1 := reader (Alive InCall)]> (threads test_cli))
                       (set_from_user_queue [PyString test_input] test_cli)))
               = set_threads (<[0 := writer (Alive InCall)]>
                                (<[1 := reader (Alive InCall)]> (threads test_cli)))
                   (set_stdout (emitted test_output) test_cli)).
  { rewrite (run_writer 0 [test_output]); [| done | done | done | simpl; lia].
    apply CLIInput_eq; done. }
  rewrite E2. done.
Qed.

End Mock.

(** ** Instances *)

Section Instances.
Local Open Scope list_scope.

Lemma nothing_happens_before_start_witness :
  let es := [ev_put "Hello user"%string; ev_feed (Returns "typed early"%string); ev_stop] in
  threads (after es fresh) = [] ∧ running (after es fresh) = false
  ∧ _stdout (after es fresh) = []
  ∧ _stdin (after es fresh) = [] ++ es ≫= fed
  ∧ _to_user_queue (after es fresh) = [] ++ es ≫= put_by
  ∧ _from_user_queue (after es fresh) `suffix_of` []
  ∧ exc_log (after es fresh) = [].
Proof.
  apply (nothing_happens_before_start [] [] [] []
           [ev_put "Hello user"%string; ev_feed (Returns "typed early"%string); ev_stop]).
  - apply exec_trace. by vm_compute.
  - repeat constructor.
Defined.

Lemma stopped_writer_winds_down_witness :
  let s := after [ev_put "last words"%string; ev_thread 0; ev_thread 0; ev_stop] test_cli in
  _stdout (run_thread 0 3 s) = _stdout s ++ owed 0 s
  ∧ _to_user_queue (run_thread 0 3 s) = _to_user_queue s
  ∧ threads (run_thread 0 3 s) !! 0 = Some (writer Exited).
Proof.
  apply (stopped_writer_winds_down 0
           (after [ev_put "last words"%string; ev_thread 0; ev_thread 0; ev_stop] test_cli)
           (Holding "last words"%string) 3).
  - by vm_compute.
  - by vm_compute.
  - discriminate.
  - lia.
Defined.

Lemma stopped_writer_writes_next_message_witness :
  let s := after [ev_thread 0; ev_stop; ev_put "too late"%string;
                  ev_put "still queued"%string] test_cli in
  _stdout (run_thread 0 4 s) = _stdout s ++ [write ("too late" ++ PyStr.nl)%string; flush]
  ∧ _to_user_queue (run_thread 0 4 s) = ["still queued"%string]
  ∧ threads (run_thread 0 4 s) !! 0 = Some (writer Exited).
Proof.
  apply (stopped_writer_writes_next_message 0
           (after [ev_thread 0; ev_stop; ev_put "too late"%string;
                   ev_put "still queued"%string] test_cli)
           "too late"%string ["still queued"%string] 4).
  - by vm_compute.
  - by vm_compute.
  - by vm_compute.
  - lia.
Defined.

Lemma stopped_reader_winds_down_witness :
  let s := after [ev_feed (Returns ("typed" ++ PyStr.nl)%string); ev_thread 1; ev_thread 1;
                  ev_stop] test_cli in
  _from_user_queue (run_thread 1 2 s) = _from_user_queue s ++ map value_of (holding 1 s)
  ∧ _stdin (run_thread 1 2 s) = _stdin s
  ∧ threads (run_thread 1 2 s) !! 1 = Some (reader Exited).
Proof.
  apply (stopped_reader_winds_down 1
           (after [ev_feed (Returns ("typed" ++ PyStr.nl)%string); ev_thread 1; ev_thread 1;
                   ev_stop] test_cli)
           (Holding ("typed" ++ PyStr.nl)%string) 2).
  - by vm_compute.
  - by vm_compute.
  - right. by eexists.
  - lia.
Defined.

Lemma stopped_reader_ends_on_next_input_witness :
  let s := after [ev_thread 1; ev_stop; ev_feed (Returns ("typed late" ++ PyStr.nl)%string);
                  ev_feed (Returns ("never read" ++ PyStr.nl)%string)] test_cli in
  _stdin (run_thread 1 3 s) = [Returns ("never read" ++ PyStr.nl)%string]
  ∧ _from_user_queue (run_thread 1 3 s)
    = _from_user_queue s ++ [value_of ("typed late" ++ PyStr.nl)%string]
  ∧ threads (run_thread 1 3 s) !! 1 = Some (reader Exited).
Proof.
  apply (stopped_reader_ends_on_next_input 1
           (after [ev_thread 1; ev_stop;
                   ev_feed (Returns ("typed late" ++ PyStr.nl)%string);
                   ev_feed (Returns ("never read" ++ PyStr.nl)%string)] test_cli)
           (Returns ("typed late" ++ PyStr.nl)%string)
           [Returns ("never read" ++ PyStr.nl)%string] 3).
  - by vm_compute.
  - by vm_compute.
  - by vm_compute.
  - lia.
Defined.

Lemma outbound_messages_conserved_witness :
  let es := [ev_put "one"%string; ev_thread 0; ev_thread 0; ev_stop; ev_start true true;
             ev_put "two"%string; ev_thread 2; ev_thread 2; ev_raise 0 OSError;
             ev_thread 2] in
  ∃ lost : list string, (length lost ≤ raises es)%nat
          ∧ (raises es = 0 → lost = [])
          ∧ outbound_all (after es test_cli) ++ map PyStr.format_line lost
            ≡ₚ outbound_all test_cli ++ map PyStr.format_line (es ≫= put_by).
Proof.
  apply (outbound_messages_conserved test_cli
           [ev_put "one"%string; ev_thread 0; ev_thread 0; ev_stop; ev_start true true;
            ev_put "two"%string; ev_thread 2; ev_thread 2; ev_raise 0 OSError;
            ev_thread 2]).
  apply exec_trace. by vm_compute.
Defined.

Lemma inbound_values_conserved_witness :
  let es := [ev_feed (Returns ("one" ++ PyStr.nl)%string); ev_thread 1; ev_thread 1;
             ev_thread 1; ev_get; ev_feed (Fails OSError); ev_feed (Returns "");
             ev_thread 1; ev_thread 1] in
  ∃ taken, length taken = gets es
           ∧ inbound_all (after es test_cli) ++ taken
             ≡ₚ inbound_all test_cli ++ omap value_of_read (es ≫= fed).
Proof.
  apply (inbound_values_conserved test_cli
           [ev_feed (Returns ("one" ++ PyStr.nl)%string); ev_thread 1; ev_thread 1;
            ev_thread 1; ev_get; ev_feed (Fails OSError); ev_feed (Returns "");
            ev_thread 1; ev_thread 1]).
  apply exec_trace. by vm_compute.
Defined.

Lemma restart_can_swap_lines_witness :
  let l1 := ("first" ++ PyStr.nl)%string in
  let l2 := ("second" ++ PyStr.nl)%string in
  trace test_cli (restart_race l1 l2) (after (restart_race l1 l2) test_cli)
  ∧ _from_user_queue (after (restart_race l1 l2) test_cli) = [command_of l2; command_of l1]
  ∧ threads (after (restart_race l1 l2) test_cli) !! 1 = Some (reader (Alive LoopTest))
  ∧ threads (after (restart_race l1 l2) test_cli) !! 3 = Some (reader (Alive LoopTest))
  ∧ running (after (restart_race l1 l2) test_cli) = true.
Proof.
  apply (restart_can_swap_lines ("first" ++ PyStr.nl)%string ("second" ++ PyStr.nl)%string);
    discriminate.
Defined.

Lemma step_on_mock_witness :
  let s := after [ev_put "shown"%string; ev_thread 0; ev_thread 0] test_cli in
  let s' := after [ev_thread 0] s in
  mock_call_of (ev_thread 0) s = calls_write ("shown" ++ PyStr.nl)%string
  ∧ mock_after (mock_call_of (ev_thread 0) s) (mock_of s) = Some (mock_of s')
  ∧ (∀ i, ev_thread 0 = ev_thread i → threads s !! i = Some (reader (Alive InCall)) →
     ∃ x, MockStdInOut.readline (mock_of s) = Some (x, mock_of s')
          ∧ threads s' !! i = Some (reader (Alive (Holding x)))).
Proof.
  split; [by vm_compute|].
  apply (step_on_mock (after [ev_put "shown"%string; ev_thread 0; ev_thread 0] test_cli)
           (ev_thread 0)).
  - by vm_compute.
  - reflexivity.
  - constructor.
Defined.

Lemma input_and_output_session_witness :
  let s1 := run_thread 1 4
              (after [ev_feed (Returns ("This is some test input" ++ PyStr.nl)%string)]
                 test_cli) in
  let s2 := run_thread 0 5 (after [ev_get; ev_put "This is some test output"%string] s1) in
  _from_user_queue s1 = [PyString "This is some test input"]
  ∧ MockStdInOut.received_data (mock_of s2)
    = [("This is some test output" ++ PyStr.nl)%string]
  ∧ MockStdInOut.to_send_data (mock_of s2) = []
  ∧ running s2 = true
  ∧ _from_user_queue s2 = []
  ∧ _to_user_queue s2 = [].
Proof.
  apply (input_and_output_session "This is some test input"%string
           "This is some test output"%string 4 5).
  - unfold no_trailing_newline. by vm_compute.
  - lia.
  - lia.
Defined.

End Instances.
